(** * Fake-Bot-Detection: the rule-based AI-text detector of [backend/main.py]

    A shallow embedding of the feature extractor [analyze_text_features], the
    scorer [calculate_ai_score], the explainer [get_explanation] and the
    request handler [detect_text], followed by the properties of the
    specification that were checked against them.

    Conventions.
    - Python [float] is IEEE 754 binary64: [spec_float] of the standard
      library at precision 53 and maximal exponent 1024, rounding to nearest,
      ties to even. A decimal literal such as [0.15] denotes the double
      nearest to 15/100.
    - Python [int] is [Z]. Every int that the code converts to a float is a
      count bounded by the length of the text, far below the 2^1024 from
      which Python raises [OverflowError]; the conversion is taken as total.
    - Python [str] is [string]; the texts considered are over the ASCII
      alphabet, for which whitespace, case and the [.] of [re] are as
      defined below.
    - A raised exception is the left summand of [result].
    - [np.var] is taken by its definition, the mean of the squared
      deviations from the mean, computed in binary64 with the sums
      accumulated in list order. *)

From Stdlib Require Import ZArith QArith Qabs Qpower List Bool Ascii String Lia.
From Stdlib Require Import Sorting.Permutation.
From Stdlib Require Floats.
From Stdlib Require Import Floats.SpecFloat.
From Stdlib Require Import Numbers.DecimalString.
Import ListNotations.

Local Open Scope Z_scope.

(** ** Exceptions *)

Inductive exn : Type :=
| ZeroDivisionError
| HTTPException (status_code : Z) (detail : string).

Definition result (A : Type) : Type := (exn + A)%type.

Definition ret {A : Type} (a : A) : result A := inr a.
Definition raise {A : Type} (e : exn) : result A := inl e.
Definition bind {A B : Type} (m : result A) (k : A -> result B) : result B :=
  match m with
  | inl e => inl e
  | inr a => k a
  end.

Notation "x <- m ;; k" := (bind m (fun x => k))
  (at level 61, m at next level, right associativity).

(** ** Binary64 arithmetic *)

Definition float : Type := spec_float.

Module F64.

Definition prec : Z := 53.
Definition emax : Z := 1024.

Definition add : float -> float -> float := SFadd prec emax.
Definition sub : float -> float -> float := SFsub prec emax.
Definition mul : float -> float -> float := SFmul prec emax.
Definition div : float -> float -> float := SFdiv prec emax.
Definition ltb : float -> float -> bool := SFltb.
Definition leb : float -> float -> bool := SFleb.
Definition eqb : float -> float -> bool := SFeqb.

(** [float(n)] for a Python int: the nearest double. *)
Definition of_int (n : Z) : float := binary_normalize prec emax n 0 false.

(** The double denoted by the decimal literal [n/d] (both below 2^53). *)
Definition lit (n d : Z) : float := div (of_int n) (of_int d).

(** An integer as an unrounded significand with exponent 0. *)
Definition exact_int (n : Z) : float :=
  match n with
  | Z0 => S754_zero false
  | Zpos p => S754_finite false p 0
  | Zneg p => S754_finite true p 0
  end.

(** [a / b] on Python ints: the correctly rounded quotient, or
    [ZeroDivisionError]. *)
Definition truediv (a b : Z) : result float :=
  if b =? 0 then raise ZeroDivisionError
  else ret (div (exact_int a) (exact_int b)).

(** Python's two-argument [min] and [max]: the first argument wins ties
    and unordered comparisons. *)
Definition min (a b : float) : float := if ltb b a then b else a.
Definition max (a b : float) : float := if ltb a b then b else a.

End F64.

Declare Scope f64_scope.
Delimit Scope f64_scope with f64.
Infix "+" := F64.add : f64_scope.
Infix "-" := F64.sub : f64_scope.
Infix "*" := F64.mul : f64_scope.
Infix "/" := F64.div : f64_scope.
Infix "<?" := F64.ltb : f64_scope.
Infix "<=?" := F64.leb : f64_scope.
Infix "=?" := F64.eqb : f64_scope.
Notation "a >? b" := (F64.ltb b a) (at level 70) : f64_scope.

Local Open Scope string_scope.

(** ** Formatting a float with a fixed number of decimals

    [format_f p x] is Python's [f"{x:.pf}"]: the exact binary value of [x]
    rounded half-to-even to [p] decimals. *)

Definition string_of_N (n : N) : string :=
  NilEmpty.string_of_uint (N.to_uint n).

Fixpoint zeros (n : nat) : string :=
  match n with
  | O => ""
  | S n' => String "0" (zeros n')
  end.

Definition pad_zeros (width : nat) (s : string) : string :=
  zeros (width - String.length s) ++ s.

(** The integer nearest to [m * 2^e * 10^p], ties to even. *)
Definition round_scaled (p : nat) (m : positive) (e : Z) : Z :=
  let n := Zpos m * 10 ^ Z.of_nat p in
  match e with
  | Zneg k =>
      let d := 2 ^ Zpos k in
      let q := n / d in
      let r := n mod d in
      match 2 * r ?= d with
      | Lt => q
      | Gt => q + 1
      | Eq => if Z.even q then q else q + 1
      end
  | _ => n * 2 ^ e
  end.

Definition format_digits (p : nat) (q : Z) : string :=
  let scale := 10 ^ Z.of_nat p in
  let ip := string_of_N (Z.to_N (q / scale)) in
  match p with
  | O => ip
  | _ => ip ++ "." ++ pad_zeros p (string_of_N (Z.to_N (q mod scale)))
  end.

Definition format_f (p : nat) (x : float) : string :=
  match x with
  | S754_nan => "nan"
  | S754_infinity s => if s then "-inf" else "inf"
  | S754_zero s => (if s then "-" else "") ++ format_digits p 0
  | S754_finite s m e => (if s then "-" else "") ++ format_digits p (round_scaled p m e)
  end.

Local Open Scope Z_scope.

(** ** Python string operations *)

Module Str.

Definition code (c : ascii) : N := N_of_ascii c.

(** [str.isspace] on one character: tab to carriage return, the four
    separators 0x1c-0x1f and the space. *)
Definition isspace (c : ascii) : bool :=
  ((9 <=? code c) && (code c <=? 13) || (28 <=? code c) && (code c <=? 32))%N.

Definition is_upper (c : ascii) : bool := ((65 <=? code c) && (code c <=? 90))%N.
Definition is_lower (c : ascii) : bool := ((97 <=? code c) && (code c <=? 122))%N.

Definition lower_char (c : ascii) : ascii :=
  if is_upper c then ascii_of_N (code c + 32) else c.

Definition is_empty (s : string) : bool :=
  match s with
  | EmptyString => true
  | String _ _ => false
  end.

Definition snoc (s : string) (c : ascii) : string := s ++ String c "".

Fixpoint existsb (f : ascii -> bool) (s : string) : bool :=
  match s with
  | EmptyString => false
  | String c s' => f c || existsb f s'
  end.

Fixpoint map (f : ascii -> ascii) (s : string) : string :=
  match s with
  | EmptyString => EmptyString
  | String c s' => String (f c) (map f s')
  end.

Fixpoint rev_onto (s acc : string) : string :=
  match s with
  | EmptyString => acc
  | String c s' => rev_onto s' (String c acc)
  end.

Definition rev (s : string) : string := rev_onto s "".

Definition len (s : string) : Z := Z.of_nat (String.length s).

(** [s.lower()] *)
Definition lower (s : string) : string := map lower_char s.

(** [s.isupper()]: some cased character, and none of them lowercase. *)
Definition isupper (s : string) : bool :=
  existsb is_upper s && negb (existsb is_lower s).

(** [s.lstrip()], [s.rstrip()], [s.strip()] *)
Fixpoint lstrip (s : string) : string :=
  match s with
  | EmptyString => EmptyString
  | String c s' => if isspace c then lstrip s' else s
  end.

Definition rstrip (s : string) : string := rev (lstrip (rev s)).

Definition strip (s : string) : string := rstrip (lstrip s).

(** [s.split()]: the maximal runs of non-whitespace characters. [cur] is
    the word being read. *)
Fixpoint split_from (s cur : string) : list string :=
  match s with
  | EmptyString => if is_empty cur then [] else [cur]
  | String c s' =>
      if isspace c
      then if is_empty cur then split_from s' "" else cur :: split_from s' ""
      else split_from s' (snoc cur c)
  end.

Definition split (s : string) : list string := split_from s "".

(** [sub in s] *)
Fixpoint contains (sub s : string) : bool :=
  prefix sub s ||
  match s with
  | EmptyString => false
  | String _ s' => contains sub s'
  end.

(** [s.count(sub)] for a non-empty [sub]: occurrences found left to right
    without overlap. [skip] characters of the last occurrence remain. *)
Fixpoint count_from (sub s : string) (skip : nat) : Z :=
  match s with
  | EmptyString => 0
  | String _ s' =>
      match skip with
      | S k => count_from sub s' k
      | O =>
          if prefix sub s
          then 1 + count_from sub s' (String.length sub - 1)
          else count_from sub s' 0
      end
  end.

Definition count (s sub : string) : Z := count_from sub s 0.

End Str.

(** ** The two regular expressions *)

Module Re.

(** The class [[.!?]]. *)
Definition is_terminator (c : ascii) : bool :=
  (c =? ".")%char || (c =? "!")%char || (c =? "?")%char.

(** [re.split(r'[.!?]+', s)]: the pieces between maximal runs of
    terminators, empty pieces included. [cur] is the piece being read and
    [in_run] tells that the previous character was a terminator. *)
Fixpoint split_from (s cur : string) (in_run : bool) : list string :=
  match s with
  | EmptyString => [cur]
  | String c s' =>
      if is_terminator c
      then if in_run then split_from s' cur true
           else cur :: split_from s' "" true
      else split_from s' (Str.snoc cur c) false
  end.

Definition split_terminators (s : string) : list string := split_from s "" false.

(** The number of characters equal to [c] at the head of [s]. *)
Fixpoint run_length (c : ascii) (s : string) : nat :=
  match s with
  | EmptyString => O
  | String d s' => if (c =? d)%char then S (run_length c s') else O
  end.

(** [.] matches any character but the line feed. *)
Definition dot (c : ascii) : bool := negb (c =? "010")%char.

(** [len(re.findall(r'(.)\1{2,}', s))]: a match starts where a character
    accepted by [.] is followed by at least two copies of itself, takes
    all the copies, and the search resumes after them. *)
Fixpoint count_repeats_from (s : string) (skip : nat) : Z :=
  match s with
  | EmptyString => 0
  | String c s' =>
      match skip with
      | S k => count_repeats_from s' k
      | O =>
          let n := run_length c s' in
          if dot c && (2 <=? n)%nat
          then 1 + count_repeats_from s' n
          else count_repeats_from s' 0
      end
  end.

Definition count_repeats (s : string) : Z := count_repeats_from s 0.

End Re.

(** ** Feature extraction *)

(** A feature that is either a Python int or a float. *)
Inductive pynum : Type :=
| PyInt (n : Z)
| PyFloat (x : float).

Definition as_float (v : pynum) : float :=
  match v with
  | PyInt n => F64.of_int n
  | PyFloat x => x
  end.

(** [v < n] and [v > n] against an int literal. *)
Definition num_lt (v : pynum) (n : Z) : bool :=
  match v with
  | PyInt k => k <? n
  | PyFloat x => (x <? F64.of_int n)%f64
  end.

Definition num_gt (v : pynum) (n : Z) : bool :=
  match v with
  | PyInt k => n <? k
  | PyFloat x => (x >? F64.of_int n)%f64
  end.

Record FeatureSet : Type := {
  word_count : Z;
  char_count : Z;
  avg_word_length : float;
  sentence_count : Z;
  avg_sentence_length : float;
  sentence_length_variance : pynum;
  lexical_diversity : float;
  ai_phrase_count : Z;
  exclamation_count : Z;
  question_count : Z;
  ellipsis_count : Z;
  comma_count : Z;
  uppercase_word_ratio : float;
  contraction_count : Z;
  slang_count : Z;
  repeated_chars : Z;
  formal_transition_count : Z
}.

Definition len {A : Type} (l : list A) : Z := Z.of_nat (List.length l).

(** [sum(...)] over ints and [sum(1 for x in l if p x)]. *)
Definition sum (l : list Z) : Z := fold_left Z.add l 0.

Definition count_if {A : Type} (p : A -> bool) (l : list A) : Z :=
  sum (List.map (fun x => if p x then 1 else 0) l).

Definition mem (w : string) (l : list string) : bool :=
  List.existsb (String.eqb w) l.

(** [len(set(l))] *)
Definition distinct (l : list string) : Z := len (nodup string_dec l).

(** [np.var] of a list of ints: the mean of the squared deviations from the
    mean, the divisor being the number of elements; the elements are taken
    as doubles and the sums are accumulated in list order. *)
Definition fsum (l : list float) : float :=
  fold_left F64.add l (S754_zero false).

Definition np_var (l : list Z) : float :=
  let arr := List.map F64.of_int l in
  let n := F64.of_int (len l) in
  let arrmean := (fsum arr / n)%f64 in
  let x := List.map (fun a => (a - arrmean)%f64) arr in
  let x := List.map (fun d => (d * d)%f64) x in
  (fsum x / n)%f64.

Definition ai_phrases : list string :=
  [ "as an ai"; "language model"; "i don't have"; "i cannot"; "i can't";
    "it's important to note"; "it is important to note";
    "in conclusion"; "furthermore"; "moreover"; "however";
    "it's worth noting"; "it is worth noting";
    "i apologize"; "i'm sorry"; "my apologies";
    "delve into"; "navigating"; "landscape of";
    "realm of"; "it's crucial"; "underscores the importance" ].

Definition contractions : list string :=
  [ "n't"; "'m"; "'re"; "'ve"; "'ll"; "'d"; "'s" ].

Definition slang_words : list string :=
  [ "lol"; "omg"; "btw"; "idk"; "tbh"; "ngl"; "fr"; "rn"; "gonna"; "wanna"; "gotta" ].

Definition formal_transitions : list string :=
  [ "furthermore"; "moreover"; "additionally"; "consequently";
    "therefore"; "thus"; "hence"; "accordingly"; "nevertheless" ].

Definition analyze_text_features (text : string) : result FeatureSet :=
  (* Basic text statistics *)
  let words := Str.split text in
  let word_count := len words in
  let char_count := Str.len text in
  avg_word_length <- F64.truediv (sum (List.map Str.len words)) (Z.max (len words) 1) ;;
  (* Sentence analysis *)
  let sentences := Re.split_terminators text in
  let sentences :=
    List.map Str.strip (List.filter (fun s => negb (Str.is_empty (Str.strip s))) sentences) in
  let sentence_count := len sentences in
  avg_sentence_length <- F64.truediv word_count (Z.max (len sentences) 1) ;;
  let sentence_length_variance :=
    if 1 <? len sentences
    then let sentence_lengths := List.map (fun s => len (Str.split s)) sentences in
         PyFloat (np_var sentence_lengths)
    else PyInt 0 in
  (* Repetition detection *)
  let words_lower := List.map Str.lower words in
  let unique_words := distinct words_lower in
  lexical_diversity <- F64.truediv unique_words (Z.max (len words) 1) ;;
  (* Common AI patterns and phrases *)
  let text_lower := Str.lower text in
  let ai_phrase_count := count_if (fun phrase => Str.contains phrase text_lower) ai_phrases in
  (* Capitalization patterns *)
  let uppercase_words :=
    count_if (fun word => Str.isupper word && (1 <? Str.len word)) words in
  uppercase_word_ratio <- F64.truediv uppercase_words (Z.max (len words) 1) ;;
  ret {|
    word_count := word_count;
    char_count := char_count;
    avg_word_length := avg_word_length;
    sentence_count := sentence_count;
    avg_sentence_length := avg_sentence_length;
    sentence_length_variance := sentence_length_variance;
    lexical_diversity := lexical_diversity;
    ai_phrase_count := ai_phrase_count;
    (* Punctuation patterns *)
    exclamation_count := Str.count text "!";
    question_count := Str.count text "?";
    ellipsis_count := Str.count text "...";
    comma_count := Str.count text ",";
    uppercase_word_ratio := uppercase_word_ratio;
    (* Contractions *)
    contraction_count := sum (List.map (fun c => Str.count text c) contractions);
    (* Slang and informal words *)
    slang_count := count_if (fun word => mem word slang_words) words_lower;
    (* Typos and repetitions *)
    repeated_chars := Re.count_repeats text;
    (* Transitions and formal connectors *)
    formal_transition_count :=
      count_if (fun word => Str.contains word text_lower) formal_transitions
  |}.

(** ** Decimal literals

    In [f64_scope] a decimal literal denotes the double nearest to it, as a
    Python literal does. *)

Definition of_decimal (d : Decimal.decimal) : option spec_float :=
  match d with
  | Decimal.Decimal (Decimal.Pos i) f =>
      let k := Z.of_nat (Decimal.nb_digits f) in
      Some (F64.lit (Z.of_uint i * 10 ^ k + Z.of_uint f) (10 ^ k))
  | _ => None
  end.

Definition of_number (n : Number.number) : option spec_float :=
  match n with
  | Number.Decimal d => of_decimal d
  | _ => None
  end.

Definition to_number (x : spec_float) : option Number.number := None.

Number Notation spec_float of_number to_number : f64_scope.

(** ** Scoring *)

(** The running score and the trace [confidence_factors]. *)
Definition state : Type := (float * list string)%type.

Definition step : Type := FeatureSet -> state -> result state.

Definition append (factors : list string) (entry : string) : list string :=
  (factors ++ [entry])%list.

(** Feature 1: AI phrases *)
Definition step_ai_phrases : step := fun features '(score, confidence_factors) =>
  if 0 <? ai_phrase_count features then
    let ai_phrase_boost := (F64.min 0.25 (F64.of_int (ai_phrase_count features) * 0.15))%f64 in
    ret ((score + ai_phrase_boost)%f64,
         append confidence_factors ("AI phrases: +" ++ format_f 2 ai_phrase_boost))
  else ret (score, confidence_factors).

(** Feature 2: Lexical diversity *)
Definition step_lexical_diversity : step := fun features '(score, confidence_factors) =>
  if (lexical_diversity features >? 0.80)%f64 then
    ret ((score + 0.15)%f64, append confidence_factors "High lexical diversity: +0.15")
  else if (lexical_diversity features <? 0.60)%f64 then
    ret ((score - 0.12)%f64, append confidence_factors "Low lexical diversity: -0.12")
  else ret (score, confidence_factors).

(** Feature 3: Sentence length uniformity *)
Definition step_sentence_uniformity : step := fun features '(score, confidence_factors) =>
  if num_lt (sentence_length_variance features) 10 && (2 <? sentence_count features) then
    ret ((score + 0.12)%f64, append confidence_factors "Uniform sentences: +0.12")
  else if num_gt (sentence_length_variance features) 30 then
    ret ((score - 0.10)%f64, append confidence_factors "Varied sentences: -0.10")
  else ret (score, confidence_factors).

(** Feature 4: Long average sentence length *)
Definition step_sentence_length : step := fun features '(score, confidence_factors) =>
  if (avg_sentence_length features >? 25)%f64 then
    ret ((score + 0.10)%f64, append confidence_factors "Long sentences: +0.10")
  else if (avg_sentence_length features <? 15)%f64 then
    ret ((score - 0.08)%f64, append confidence_factors "Short sentences: -0.08")
  else ret (score, confidence_factors).

(** Feature 5: Formal transitions *)
Definition step_formal_transitions : step := fun features '(score, confidence_factors) =>
  if 2 <? formal_transition_count features then
    ret ((score + 0.12)%f64, append confidence_factors "Formal transitions: +0.12")
  else ret (score, confidence_factors).

(** Feature 6: Punctuation variety *)
Definition step_punctuation : step := fun features '(score, confidence_factors) =>
  if (0 <? exclamation_count features) || (1 <? question_count features) then
    ret ((score - 0.10)%f64, append confidence_factors "Varied punctuation: -0.10")
  else ret (score, confidence_factors).

Definition step_ellipsis : step := fun features '(score, confidence_factors) =>
  if 0 <? ellipsis_count features then
    ret ((score - 0.08)%f64, append confidence_factors "Ellipsis usage: -0.08")
  else ret (score, confidence_factors).

(** Feature 7: Contractions *)
Definition step_contractions : step := fun features '(score, confidence_factors) =>
  contraction_ratio <-
    F64.truediv (contraction_count features) (Z.max (word_count features) 1) ;;
  if (contraction_ratio >? 0.03)%f64 then
    ret ((score - 0.12)%f64, append confidence_factors "High contractions: -0.12")
  else if (contraction_ratio =? 0)%f64 && (50 <? word_count features) then
    ret ((score + 0.08)%f64, append confidence_factors "No contractions: +0.08")
  else ret (score, confidence_factors).

(** Feature 8: Slang and informal language *)
Definition step_slang : step := fun features '(score, confidence_factors) =>
  if 0 <? slang_count features then
    let slang_boost := (F64.min 0.20 (F64.of_int (slang_count features) * 0.10))%f64 in
    ret ((score - slang_boost)%f64,
         append confidence_factors ("Slang words: -" ++ format_f 2 slang_boost))
  else ret (score, confidence_factors).

(** Feature 9: Repeated characters *)
Definition step_repeated_chars : step := fun features '(score, confidence_factors) =>
  if 0 <? repeated_chars features then
    ret ((score - 0.10)%f64, append confidence_factors "Repeated chars: -0.10")
  else ret (score, confidence_factors).

(** Feature 10: Uppercase emphasis *)
Definition step_uppercase : step := fun features '(score, confidence_factors) =>
  if (uppercase_word_ratio features >? 0.05)%f64 then
    ret ((score - 0.08)%f64, append confidence_factors "Uppercase emphasis: -0.08")
  else ret (score, confidence_factors).

(** Feature 11: Very short text is pulled toward neutral *)
Definition step_short_text : step := fun features '(score, confidence_factors) =>
  if word_count features <? 30 then
    ret ((0.5 + (score - 0.5) * 0.6)%f64,
         append confidence_factors "Short text: reduced confidence")
  else ret (score, confidence_factors).

(** Feature 12: Perfect grammar and structure *)
Definition step_perfect_structure : step := fun features '(score, confidence_factors) =>
  if (exclamation_count features =? 0) &&
     (slang_count features =? 0) &&
     (repeated_chars features =? 0) &&
     (lexical_diversity features >? 0.75)%f64 &&
     (40 <? word_count features) then
    ret ((score + 0.10)%f64, append confidence_factors "Perfect structure: +0.10")
  else ret (score, confidence_factors).

(** Clamp score between 0.05 and 0.95 *)
Definition step_clamp : step := fun features '(score, confidence_factors) =>
  ret ((F64.max 0.05 (F64.min 0.95 score))%f64, confidence_factors).

(** The steps in the order the scorer takes them. *)
Definition scorer_steps : list step :=
  [ step_ai_phrases; step_lexical_diversity; step_sentence_uniformity;
    step_sentence_length; step_formal_transitions; step_punctuation;
    step_ellipsis; step_contractions; step_slang; step_repeated_chars;
    step_uppercase; step_short_text; step_perfect_structure; step_clamp ].

Fixpoint run_steps (steps : list step) (features : FeatureSet) (st : state)
  : result state :=
  match steps with
  | [] => ret st
  | s :: rest => st' <- s features st ;; run_steps rest features st'
  end.

(** The result of the scorer for a given order of its steps. *)
Definition score_with (steps : list step) (features : FeatureSet)
  : result (float * float * list string) :=
  (* Start with neutral score *)
  st <- run_steps steps features (0.5%f64, []) ;;
  let '(score, confidence_factors) := st in
  let ai_probability := score in
  let human_probability := (1 - score)%f64 in
  ret (ai_probability, human_probability, confidence_factors).

Definition calculate_ai_score (text : string) (features : FeatureSet)
  : result (float * float * list string) :=
  score_with scorer_steps features.

(** ** Explanation *)

(** [sep.join(l)] *)
Fixpoint join (sep : string) (l : list string) : string :=
  match l with
  | [] => ""
  | [x] => x
  | x :: rest => x ++ sep ++ join sep rest
  end.

(** [l.append(x)] when [b] holds. *)
Definition append_if (b : bool) (x : string) (l : list string) : list string :=
  if b then append l x else l.

Definition ai_clauses (features : FeatureSet) : list string :=
  let explanations := [] in
  let explanations :=
    append_if (0 <? ai_phrase_count features)
      "Contains typical AI assistant phrases" explanations in
  let explanations :=
    append_if (2 <? formal_transition_count features)
      "Uses formal transitions like 'furthermore' and 'moreover'" explanations in
  let explanations :=
    append_if (lexical_diversity features >? 0.75)%f64
      "High vocabulary diversity typical of AI" explanations in
  let explanations :=
    append_if (avg_sentence_length features >? 25)%f64
      "Consistently long, complex sentences" explanations in
  let explanations :=
    append_if (num_lt (sentence_length_variance features) 10 && (2 <? sentence_count features))
      "Very uniform sentence structure" explanations in
  let explanations :=
    append_if ((contraction_count features =? 0) && (50 <? word_count features))
      "Formal tone with no contractions" explanations in
  match explanations with
  | [] => ["Text structure and patterns suggest AI generation"]
  | _ => explanations
  end.

Definition human_clauses (features : FeatureSet) : list string :=
  let explanations := [] in
  let explanations :=
    append_if (0 <? slang_count features)
      "Uses informal language and slang" explanations in
  let explanations :=
    append_if (0 <? repeated_chars features)
      "Contains emotional expressions with repeated characters" explanations in
  let explanations :=
    append_if ((0 <? exclamation_count features) || (1 <? question_count features))
      "Varied punctuation suggests human writing" explanations in
  let explanations :=
    append_if (0 <? contraction_count features)
      "Natural use of contractions" explanations in
  let explanations :=
    append_if (num_gt (sentence_length_variance features) 30)
      "Sentence lengths vary naturally" explanations in
  let explanations :=
    append_if (lexical_diversity features <? 0.65)%f64
      "Natural word repetition patterns" explanations in
  match explanations with
  | [] => ["Writing style and patterns suggest human authorship"]
  | _ => explanations
  end.

Definition get_explanation (is_ai : bool) (confidence : float)
    (features : FeatureSet) (factors : list string) : string :=
  let explanations := if is_ai then ai_clauses features else human_clauses features in
  let confidence_text := "Confidence: " ++ format_f 1 (confidence * 100)%f64 ++ "%" in
  join ". " explanations ++ ". " ++ confidence_text.

(** ** The [/detect] endpoint *)

Record DetectionResponse : Type := {
  is_ai_generated : bool;
  confidence : float;
  human_probability : float;
  ai_probability : float;
  explanation : string;
  features : FeatureSet
}.

Definition msg_empty : string := "Text cannot be empty".
Definition msg_too_short : string :=
  "Text too short for analysis (minimum 10 characters)".
Definition msg_too_few_words : string :=
  "Text is too short for reliable detection. Please provide at least 20 words (50+ words recommended for best accuracy)".

Definition detect_text (input_text : string) : result DetectionResponse :=
  let text := Str.strip input_text in
  if Str.is_empty text then raise (HTTPException 400 msg_empty)
  else if Str.len text <? 10 then raise (HTTPException 400 msg_too_short)
  else
    let word_count := len (Str.split text) in
    if word_count <? 20 then raise (HTTPException 400 msg_too_few_words)
    else
      (* Analyze text features *)
      features <- analyze_text_features text ;;
      (* Calculate AI probability *)
      r <- calculate_ai_score text features ;;
      let '(ai_prob, human_prob, factors) := r in
      let is_ai_generated := (ai_prob >? 0.5)%f64 in
      let confidence := F64.max ai_prob human_prob in
      let explanation := get_explanation is_ai_generated confidence features factors in
      ret {|
        is_ai_generated := is_ai_generated;
        confidence := confidence;
        human_probability := human_prob;
        ai_probability := ai_prob;
        explanation := explanation;
        features := features
      |}.

(** ** Adjustments

    What a scorer step does to the running score, read off the code: it
    leaves it, adds or subtracts a constant, pulls it toward 0.5, or clamps
    it. *)

Inductive adj : Type :=
| Keep
| Plus (d : float)
| Minus (d : float)
| Damp
| Clamp.

Definition apply_adj (a : adj) (score : float) : float :=
  match a with
  | Keep => score
  | Plus d => (score + d)%f64
  | Minus d => (score - d)%f64
  | Damp => (0.5 + (score - 0.5) * 0.6)%f64
  | Clamp => (F64.max 0.05 (F64.min 0.95 score))%f64
  end.

(** A rule of the scorer: the adjustment of the score and the entries added
    to the trace. *)
Definition rule : Type := (adj * list string)%type.

Definition apply_rules (rules : list rule) (score : float) : float :=
  fold_left (fun s r => apply_adj (fst r) s) rules score.

Definition trace_of (rules : list rule) : list string :=
  List.concat (List.map snd rules).

(** The rules each step of [scorer_steps] chooses from. *)
Definition scorer_rules : list (list rule) :=
  [ [ (Keep, []);
      (Plus 0.15%f64, ["AI phrases: +0.15"]);
      (Plus 0.25%f64, ["AI phrases: +0.25"]) ];
    [ (Keep, []);
      (Plus 0.15%f64, ["High lexical diversity: +0.15"]);
      (Minus 0.12%f64, ["Low lexical diversity: -0.12"]) ];
    [ (Keep, []);
      (Plus 0.12%f64, ["Uniform sentences: +0.12"]);
      (Minus 0.10%f64, ["Varied sentences: -0.10"]) ];
    [ (Keep, []);
      (Plus 0.10%f64, ["Long sentences: +0.10"]);
      (Minus 0.08%f64, ["Short sentences: -0.08"]) ];
    [ (Keep, []); (Plus 0.12%f64, ["Formal transitions: +0.12"]) ];
    [ (Keep, []); (Minus 0.10%f64, ["Varied punctuation: -0.10"]) ];
    [ (Keep, []); (Minus 0.08%f64, ["Ellipsis usage: -0.08"]) ];
    [ (Keep, []);
      (Minus 0.12%f64, ["High contractions: -0.12"]);
      (Plus 0.08%f64, ["No contractions: +0.08"]) ];
    [ (Keep, []);
      (Minus 0.10%f64, ["Slang words: -0.10"]);
      (Minus 0.20%f64, ["Slang words: -0.20"]) ];
    [ (Keep, []); (Minus 0.10%f64, ["Repeated chars: -0.10"]) ];
    [ (Keep, []); (Minus 0.08%f64, ["Uppercase emphasis: -0.08"]) ];
    [ (Keep, []); (Damp, ["Short text: reduced confidence"]) ];
    [ (Keep, []); (Plus 0.10%f64, ["Perfect structure: +0.10"]) ];
    [ (Clamp, []) ] ].

(** [s] always succeeds, and what it does is one of [rules], chosen by the
    features alone. *)
Definition acts (s : step) (rules : list rule) : Prop :=
  forall features, exists r,
    In r rules /\
    forall score factors,
      s features (score, factors)
        = inr (apply_adj (fst r) score, (factors ++ snd r)%list).

(** A property of the outcome checked on every combination of choices. *)
Section Check.
Context {A B : Type}.
Variable act : B -> A -> A.
Variable P : A -> bool.

Fixpoint check (choices : list (list B)) (x : A) : bool :=
  match choices with
  | [] => P x
  | c :: rest => forallb (fun b => check rest (act b x)) c
  end.
End Check.

(** The properties of a final score that [check] is run on. *)
Definition sums_to_one (score : float) : bool :=
  ((score + (1 - score)) =? 1)%f64.

Definition in_clamp_range (score : float) : bool :=
  ((0.05 <=? score) && (score <=? 0.95))%f64.

Definition confidence_in_range (score : float) : bool :=
  let c := F64.max score (1 - score)%f64 in
  ((0.5 <=? c) && (c <=? 0.95))%f64.

(** * Definitions for the properties *)

(** ** Primitive floats

    The checks over all combinations of rules are run on the kernel's
    binary64 floats, which the standard library specifies by the same
    [SpecFloat] operations as the model uses. *)

(** Structural equality of doubles. *)
Definition float_eqb (x y : float) : bool :=
  match x, y with
  | S754_zero s, S754_zero s' => Bool.eqb s s'
  | S754_infinity s, S754_infinity s' => Bool.eqb s s'
  | S754_nan, S754_nan => true
  | S754_finite s m e, S754_finite s' m' e' => Bool.eqb s s' && Pos.eqb m m' && Z.eqb e e'
  | _, _ => false
  end.

(** The constants of the scorer. *)
Definition p_half : PrimFloat.float := Eval vm_compute in FloatOps.SF2Prim 0.5%f64.
Definition p_one : PrimFloat.float := Eval vm_compute in FloatOps.SF2Prim 1%f64.
Definition p_0_6 : PrimFloat.float := Eval vm_compute in FloatOps.SF2Prim 0.6%f64.
Definition p_0_05 : PrimFloat.float := Eval vm_compute in FloatOps.SF2Prim 0.05%f64.
Definition p_0_95 : PrimFloat.float := Eval vm_compute in FloatOps.SF2Prim 0.95%f64.
Definition p_0_15 : PrimFloat.float := Eval vm_compute in FloatOps.SF2Prim 0.15%f64.

(** [min] and [max] with Python's choice on ties. *)
Definition p_min (a b : PrimFloat.float) : PrimFloat.float :=
  if PrimFloat.ltb b a then b else a.
Definition p_max (a b : PrimFloat.float) : PrimFloat.float :=
  if PrimFloat.ltb a b then b else a.

(** An adjustment with its constant as a primitive float. *)
Inductive fadj : Type :=
| FKeep
| FPlus (d : PrimFloat.float)
| FMinus (d : PrimFloat.float)
| FDamp
| FClamp.

(** The primitive counterparts of [apply_adj], of a rule and of a run of
    rules. *)
Definition to_fast (a : adj) : fadj :=
  match a with
  | Keep => FKeep
  | Plus d => FPlus (FloatOps.SF2Prim d)
  | Minus d => FMinus (FloatOps.SF2Prim d)
  | Damp => FDamp
  | Clamp => FClamp
  end.

Definition fast_apply (a : fadj) (x : PrimFloat.float) : PrimFloat.float :=
  match a with
  | FKeep => x
  | FPlus d => PrimFloat.add x d
  | FMinus d => PrimFloat.sub x d
  | FDamp => PrimFloat.add p_half (PrimFloat.mul (PrimFloat.sub x p_half) p_0_6)
  | FClamp => p_max p_0_05 (p_min p_0_95 x)
  end.

(** The constant of the adjustment is a double that the primitive floats
    represent. *)
Definition adj_exact (a : adj) : bool :=
  match a with
  | Plus d | Minus d => float_eqb (FloatOps.Prim2SF (FloatOps.SF2Prim d)) d
  | _ => true
  end.

Definition rules_exact (rules : list (list rule)) : bool :=
  forallb (forallb (fun r => adj_exact (fst r))) rules.

Definition fast_rule (r : rule) : fadj := to_fast (fst r).

Definition fast_rules (rules : list (list rule)) : list (list fadj) :=
  List.map (List.map fast_rule) rules.

Definition fast_apply_rules (rs : list rule) (x : PrimFloat.float) : PrimFloat.float :=
  fold_left (fun y b => fast_apply b y) (List.map fast_rule rs) x.

(** [sums_to_one], [in_clamp_range] and [confidence_in_range] at once. *)
Definition fast_final_ok (x : PrimFloat.float) : bool :=
  PrimFloat.eqb (PrimFloat.add x (PrimFloat.sub p_one x)) p_one &&
  (PrimFloat.leb p_0_05 x && PrimFloat.leb x p_0_95) &&
  (let c := p_max x (PrimFloat.sub p_one x) in
   PrimFloat.leb p_half c && PrimFloat.leb c p_0_95).

(** ** The request handler *)

(** The input validation of [detect_text] fails, on the trimmed text. *)
Definition rejected (text : string) : Prop :=
  text = "" \/ Str.len text < 10 \/ len (Str.split text) < 20.

(** A text on which no rule of the scorer fires. *)
Definition neutral_text : string :=
  "the cat sat on the mat and the dog lay on the rug while the bird sang in the old tree. the sun was warm and the sky was blue but the wind blew soft so the day felt long and the night came calm and quiet".

(** ** The extractor (C7, C9) *)

(** The per-sentence word counts [sentence_lengths] of the extractor. *)
Definition sentence_lengths (text : string) : list Z :=
  List.map (fun s => len (Str.split s))
    (List.map Str.strip
       (List.filter (fun s => negb (Str.is_empty (Str.strip s)))
          (Re.split_terminators text))).

(** Three degenerate inputs: one character, punctuation only, and no
    sentence terminator. *)
Definition one_char_features : FeatureSet := {|
  word_count := 1; char_count := 1; avg_word_length := 1%f64;
  sentence_count := 1; avg_sentence_length := 1%f64;
  sentence_length_variance := PyInt 0; lexical_diversity := 1%f64;
  ai_phrase_count := 0; exclamation_count := 0; question_count := 0;
  ellipsis_count := 0; comma_count := 0; uppercase_word_ratio := 0%f64;
  contraction_count := 0; slang_count := 0; repeated_chars := 0;
  formal_transition_count := 0 |}.

Definition punctuation_features : FeatureSet := {|
  word_count := 1; char_count := 3; avg_word_length := 3%f64;
  sentence_count := 0; avg_sentence_length := 1%f64;
  sentence_length_variance := PyInt 0; lexical_diversity := 1%f64;
  ai_phrase_count := 0; exclamation_count := 2; question_count := 1;
  ellipsis_count := 0; comma_count := 0; uppercase_word_ratio := 0%f64;
  contraction_count := 0; slang_count := 0; repeated_chars := 0;
  formal_transition_count := 0 |}.

Definition no_terminator_features : FeatureSet := {|
  word_count := 3; char_count := 13; avg_word_length := F64.lit 11 3;
  sentence_count := 1; avg_sentence_length := 3%f64;
  sentence_length_variance := PyInt 0; lexical_diversity := 1%f64;
  ai_phrase_count := 0; exclamation_count := 0; question_count := 0;
  ellipsis_count := 0; comma_count := 0; uppercase_word_ratio := 0%f64;
  contraction_count := 0; slang_count := 0; repeated_chars := 0;
  formal_transition_count := 0 |}.

(** A text that contains every entry of [ai_phrases]. *)
Definition all_phrases_text : string :=
  "As an AI language model I don't have feelings, I cannot lie and I can't guess. It's important to note, and it is important to note, that in conclusion, furthermore, moreover, however, it's worth noting and it is worth noting that I apologize, I'm sorry, my apologies as we delve into navigating the landscape of the realm of ideas, because it's crucial and underscores the importance of care.".

(** ** The dampening and the bonus (C4) *)

(** The trace entries of the two rules. *)
Definition short_text_entry : string := "Short text: reduced confidence".
Definition perfect_structure_entry : string := "Perfect structure: +0.10".

(** The conditions of the short-text and perfect-structure rules. *)
Definition is_short (features : FeatureSet) : bool :=
  word_count features <? 30.

Definition is_perfect (features : FeatureSet) : bool :=
  (exclamation_count features =? 0) &&
  (slang_count features =? 0) &&
  (repeated_chars features =? 0) &&
  (lexical_diversity features >? 0.75)%f64 &&
  (40 <? word_count features).

(** The steps before the short-text step: the additive rules 1 to 11. *)
Definition additive_steps : list step := firstn 11 scorer_steps.
Definition additive_rules : list (list rule) := firstn 11 scorer_rules.

(** ** The variance of the sentence lengths (C6) *)

(** The exact value of a finite double. *)
Definition to_Q (x : float) : Q :=
  match x with
  | S754_finite s m e => (inject_Z (if s then Zneg m else Zpos m) * Qpower 2 e)%Q
  | _ => 0%Q
  end.

(** The sum of a list of rationals. *)
Definition sumQ (l : list Q) : Q := fold_left Qplus l 0%Q.

(** From the specification: the population variance of a list of word
    counts, the mean of the squared deviations from the mean, the divisor
    being the number [N] of counts. *)
Definition population_variance (l : list Z) : Q :=
  let n := inject_Z (len l) in
  let mean := (sumQ (List.map inject_Z l) / n)%Q in
  (sumQ (List.map (fun x => (inject_Z x - mean) * (inject_Z x - mean))%Q l) / n)%Q.

(** The sample variance, with divisor [N - 1], for comparison. *)
Definition sample_variance (l : list Z) : Q :=
  let n := inject_Z (len l) in
  let mean := (sumQ (List.map inject_Z l) / n)%Q in
  (sumQ (List.map (fun x => (inject_Z x - mean) * (inject_Z x - mean))%Q l)
     / (n - 1))%Q.

(** Texts whose sentences have the word counts [5; 5; 5] and [1; 10]. *)
Definition three_equal_sentences : string :=
  "One two three four five. Six seven eight nine ten. A b c d e.".

Definition short_and_long_sentence : string :=
  "Hello. One two three four five six seven eight nine ten.".

(** ** Monotonicity in the AI-phrase count (C3) *)

(** [features] with another [ai_phrase_count], every other feature fixed. *)
Definition with_ai_phrase_count (features : FeatureSet) (c : Z) : FeatureSet := {|
  word_count := word_count features;
  char_count := char_count features;
  avg_word_length := avg_word_length features;
  sentence_count := sentence_count features;
  avg_sentence_length := avg_sentence_length features;
  sentence_length_variance := sentence_length_variance features;
  lexical_diversity := lexical_diversity features;
  ai_phrase_count := c;
  exclamation_count := exclamation_count features;
  question_count := question_count features;
  ellipsis_count := ellipsis_count features;
  comma_count := comma_count features;
  uppercase_word_ratio := uppercase_word_ratio features;
  contraction_count := contraction_count features;
  slang_count := slang_count features;
  repeated_chars := repeated_chars features;
  formal_transition_count := formal_transition_count features
|}.

(** The same adjustment on two scores at once. *)
Definition fast_both (a : fadj) (p : PrimFloat.float * PrimFloat.float)
  : PrimFloat.float * PrimFloat.float :=
  (fast_apply a (fst p), fast_apply a (snd p)).

(** The second score is not below the first, and is above it unless both
    sit on the same bound of the clamp. *)
Definition increased (p : float * float) : bool :=
  ((fst p <=? snd p) &&
   ((fst p <? snd p)
    || ((fst p =? 0.95) && (snd p =? 0.95))
    || ((fst p =? 0.05) && (snd p =? 0.05))))%f64.

(** [increased] on primitive floats. *)
Definition fast_increased (p : PrimFloat.float * PrimFloat.float) : bool :=
  PrimFloat.leb (fst p) (snd p) &&
  (PrimFloat.ltb (fst p) (snd p)
   || (PrimFloat.eqb (fst p) p_0_95 && PrimFloat.eqb (snd p) p_0_95)
   || (PrimFloat.eqb (fst p) p_0_05 && PrimFloat.eqb (snd p) p_0_05)).

(** A formal text without any AI phrase whose score is already 0.95. *)
Definition formal_text : string :=
  "The committee reviewed every proposal during its annual meeting and found several items worth funding this year. Therefore the board approved a larger budget for research into renewable energy across rural districts nationwide. Consequently many local engineers will begin building new solar plants near small farming towns next spring. Thus regional planners expect cleaner power, lower prices and hence stronger growth within five years.".

(** ** Reordering the additive steps (C2)

    Floating-point addition is not associative, so the order of the
    additive steps can change the last bits of the score; how far is found
    by tabulating the scores reachable in any order.

    A selection [v] gives, for each additive step, the index of the rule it
    takes, 0 being the rule that keeps the score. The table holds, for every
    selection, the scores that its rules produce from 0.5 in some order. *)

(** Sets of scores as duplicate-free lists. *)
Definition p_mem (x : PrimFloat.float) (l : list PrimFloat.float) : bool :=
  existsb (PrimFloat.Leibniz.eqb x) l.

Definition p_add (x : PrimFloat.float) (l : list PrimFloat.float) : list PrimFloat.float :=
  if p_mem x l then l else x :: l.

Definition p_union (l1 l2 : list PrimFloat.float) : list PrimFloat.float :=
  fold_right p_add l2 l1.

(** A table of sets of scores indexed by selections: a trie branching on
    the rule index of each step in turn. *)
Inductive table : Type :=
| Leaf (scores : list PrimFloat.float)
| Node (children : list table).

Fixpoint lookup (t : table) (v : list nat) : list PrimFloat.float :=
  match t, v with
  | Leaf scores, [] => scores
  | Node children, k :: v' => lookup (nth k children (Leaf [])) v'
  | _, _ => []
  end.

(** The table that holds [g v] at every selection [v]. *)
Fixpoint build {B : Type} (rules : list (list B)) (g : list nat -> list PrimFloat.float)
  : table :=
  match rules with
  | [] => Leaf (g [])
  | R :: rest =>
      Node (List.map (fun k => build rest (fun v => g (k :: v))) (seq 0 (List.length R)))
  end.

(** Every selection. *)
Fixpoint all_vectors {B : Type} (rules : list (list B)) : list (list nat) :=
  match rules with
  | [] => [[]]
  | R :: rest =>
      flat_map (fun k => List.map (cons k) (all_vectors rest)) (seq 0 (List.length R))
  end.

(** [v] gives each step the index of one of its rules. *)
Definition valid {B : Type} (v : list nat) (rules : list (list B)) : Prop :=
  Forall2 (fun k (R : list B) => (k < List.length R)%nat) v rules.

(** [v] with the rule of step [i] replaced by [k]. *)
Fixpoint set_nth (i k : nat) (v : list nat) : list nat :=
  match v, i with
  | [], _ => []
  | _ :: v', O => k :: v'
  | x :: v', S i' => x :: set_nth i' k v'
  end.

(** The number of steps of [v] that change the score. *)
Definition fired_count (v : list nat) : nat :=
  List.length (filter (fun k => negb (Nat.eqb k 0)) v).

(** Rule [k] of step [i]. *)
Definition rule_at (rules : list (list rule)) (i k : nat) : rule :=
  nth k (nth i rules []) (Keep, []).

Definition fast_rule_at (rules : list (list fadj)) (i k : nat) : fadj :=
  nth k (nth i rules []) FKeep.

Section Table.
Variable rules : list (list fadj).

(** The scores that reach [w] by one more step from a selection with one
    step less. *)
Definition arrivals (T : table) (w : list nat) : list PrimFloat.float :=
  fold_right
    (fun i acc =>
       if Nat.eqb (nth i w O) 0 then acc
       else p_union (List.map (fast_apply (fast_rule_at rules i (nth i w O)))
                       (lookup T (set_nth i 0 w))) acc)
    [] (seq 0 (List.length w)).

(** The table with the selections of [n] firing steps filled in from
    those of [n - 1]. *)
Definition layer (T : table) (n : nat) : table :=
  build rules (fun w => if Nat.eqb (fired_count w) n then arrivals T w else lookup T w).

(** Before any step, only the empty selection is reached, with 0.5. *)
Definition table0 : table :=
  build rules (fun w => if Nat.eqb (fired_count w) 0 then [p_half] else []).

(** The table filled in layer by layer. *)
Definition reachable : table := fold_left layer (seq 1 (List.length rules)) table0.

(** [T] holds 0.5 for the empty selection and is closed under taking one
    more step. *)
Definition closed (T : table) : bool :=
  p_mem p_half (lookup T (repeat O (List.length rules))) &&
  forallb (fun v =>
    forallb (fun i =>
      if Nat.eqb (nth i v O) 0 then
        forallb (fun k =>
          forallb (fun x => p_mem (fast_apply (fast_rule_at rules i k) x)
                              (lookup T (set_nth i k v)))
                  (lookup T v))
          (seq 0 (List.length (nth i rules [])))
      else true)
      (seq 0 (List.length rules)))
    (all_vectors rules).
End Table.

(** The score after the steps of [order], each taking its rule of [v]. *)
Definition in_order (rules : list (list rule)) (v order : list nat) (score : float) : float :=
  fold_left (fun s i => apply_adj (fst (rule_at rules i (nth i v O))) s) order score.

Definition fast_in_order (rules : list (list fadj)) (v order : list nat)
    (score : PrimFloat.float) : PrimFloat.float :=
  fold_left (fun s i => fast_apply (fast_rule_at rules i (nth i v O)) s) order score.

(** The trace entries of the rules of [c], in the order of [order]. *)
Definition entries_in_order (rules : list (list rule)) (c order : list nat) : list string :=
  flat_map (fun i => snd (rule_at rules i (nth i c O))) order.

(** The vector that agrees with [c] on the positions of [p], started from [v]. *)
Definition fill (c : list nat) (p : list nat) (v : list nat) : list nat :=
  fold_left (fun v i => set_nth i (nth i c O) v) p v.

(** *** A search tree of pairs of scores, to check each pair once *)

(** A score in the scorer's order with a score in another order. *)
Definition score_pair : Type := (PrimFloat.float * PrimFloat.float)%type.

Inductive pair_tree : Type :=
| PEmpty
| PNode (l : pair_tree) (p : score_pair) (r : pair_tree).

(** Equality and a lexicographic order on pairs. *)
Definition pair_eqb (p q : score_pair) : bool :=
  PrimFloat.Leibniz.eqb (fst p) (fst q) && PrimFloat.Leibniz.eqb (snd p) (snd q).

Definition pair_ltb (p q : score_pair) : bool :=
  PrimFloat.ltb (fst p) (fst q)
  || (PrimFloat.Leibniz.eqb (fst p) (fst q) && PrimFloat.ltb (snd p) (snd q)).

Fixpoint insert (p : score_pair) (t : pair_tree) : pair_tree :=
  match t with
  | PEmpty => PNode PEmpty p PEmpty
  | PNode l q r =>
      if pair_eqb p q then t
      else if pair_ltb p q then PNode (insert p l) q r
      else PNode l q (insert p r)
  end.

Fixpoint elements (t : pair_tree) : list score_pair :=
  match t with
  | PEmpty => []
  | PNode l q r => (elements l ++ q :: elements r)%list
  end.

(** The score of the scorer's order paired with each reachable score, for
    every selection. *)
Definition all_pairs (rules : list (list fadj)) (T : table) : list score_pair :=
  flat_map
    (fun v =>
       let y := fast_in_order rules v (seq 0 (List.length rules)) p_half in
       List.map (fun x => (y, x)) (lookup T v))
    (all_vectors rules).

(** The pairs of [all_pairs], each once. *)
Definition distinct_pairs (rules : list (list fadj)) (T : table) : pair_tree :=
  fold_left (fun t p => insert p t) (all_pairs rules T) PEmpty.

(** *** The distance check *)

(** The signed significand and the exponent of a finite double. *)
Definition parts (x : float) : option (Z * Z) :=
  match x with
  | S754_zero _ => Some (0, 0)
  | S754_finite s m e => Some (if s then Zneg m else Zpos m, e)
  | _ => None
  end.

(** [|m2 * 2^e2 - m1 * 2^e1| <= 2^-50], on the scale of the smaller exponent. *)
Definition within (a b : Z * Z) : bool :=
  let e := Z.min (Z.min (snd a) (snd b)) (-50) in
  Z.abs (fst b * 2 ^ (snd b - e) - fst a * 2 ^ (snd a - e)) <=? 2 ^ (-50 - e).

(** The two scores of [p] are equal or finite and within 2^-50. *)
Definition fast_close (p : score_pair) : bool :=
  PrimFloat.Leibniz.eqb (fst p) (snd p) ||
  match parts (FloatOps.Prim2SF (fst p)), parts (FloatOps.Prim2SF (snd p)) with
  | Some a, Some b => within a b
  | _, _ => false
  end.

(** After the last three steps, the scores of every pair are within 2^-50. *)
Definition good (rules tail : list (list fadj)) (T : table) : bool :=
  forallb (check fast_both fast_close tail) (elements (distinct_pairs rules T)).

(** *** The reordered scorer *)

(** The last three steps: short-text dampening, perfect-structure bonus and
    clamp. *)
Definition tail_steps : list step := skipn 11 scorer_steps.
Definition tail_rules : list (list rule) := skipn 11 scorer_rules.

(** The scorer with its additive steps taken in the given order. *)
Definition reordered (order : list nat) : list step :=
  (List.map (fun i => nth i additive_steps step_clamp) order ++ tail_steps)%list.

(** *** The effect of the order *)

(** A casual text of 25 words, which the short-text step dampens. *)
Definition casual_text : string :=
  "lol this is so great!! idk why but it's awesome, gonna tell everyone about it right now because honestly this is the best thing ever".

(** The scorer with the short-text step taken first. *)
Definition damp_first : list step :=
  step_short_text :: (additive_steps ++ [step_perfect_structure; step_clamp])%list.

(** A text on which exactly the repeated-characters and the
    uppercase-emphasis rules fire. *)
Definition emphatic_text : string :=
  "the cat sat on the mat and the DOG lay on the rug while the BIRD sang in the OLD tree. the sun was sooo warm and the sky was blue but the wind blew soft so the day felt long and the night came calm and quiet".

(** The order of the additive steps with the last two exchanged. *)
Definition swapped_order : list nat := [0; 1; 2; 3; 4; 5; 6; 7; 8; 10; 9]%nat.

(** ** The label, the confidence and the human probability *)

(** The human probability is in the clamp range, the label says which
    probability is the larger, and the confidence is the probability of the
    label. *)
Definition fast_label_ok (x : PrimFloat.float) : bool :=
  let human := PrimFloat.sub p_one x in
  let c := p_max x human in
  (PrimFloat.leb p_0_05 human && PrimFloat.leb human p_0_95) &&
  Bool.eqb (PrimFloat.ltb p_half x) (PrimFloat.ltb human x) &&
  PrimFloat.Leibniz.eqb c (if PrimFloat.ltb p_half x then x else human).

(** [fast_label_ok] on the doubles of the model. *)
Definition label_ok (score : float) : Prop :=
  let human := (1 - score)%f64 in
  (0.05 <=? human)%f64 = true /\
  (human <=? 0.95)%f64 = true /\
  (score >? 0.5)%f64 = (score >? human)%f64 /\
  F64.max score human = (if (score >? 0.5)%f64 then score else human).

(** ** Trimming *)

(** A text of whitespace only. *)
Definition blank (s : string) : Prop := Str.lstrip s = "".

(** A line break, two spaces and a tab. *)
Definition some_whitespace : string :=
  String "010" (String " " (String " " (String "009" ""))).

(** ** Lower-casing *)

(** A character that is not a letter. *)
Definition caseless (c : ascii) : bool := negb (Str.is_upper c || Str.is_lower c).

(** ** Repeated characters and the ellipsis *)

(** A text with an ellipsis and nothing else that is informal. *)
Definition trailing_off_text : string :=
  "the cat sat on the mat and the dog lay on the rug while the bird sang in the old tree... the sun was warm and the sky was blue but the wind blew soft so the day felt long and the night came calm and quiet".

(** ** The trace *)

(** The entries a step adds to the trace, for given features. *)
Definition step_entries (features : FeatureSet) (s : step) : list string :=
  match s features (0.5%f64, []) with
  | inr (_, entries) => entries
  | inl _ => []
  end.

(** Every entry the trace can hold. *)
Definition trace_vocabulary : list string :=
  [ "AI phrases: +0.15"; "AI phrases: +0.25";
    "High lexical diversity: +0.15"; "Low lexical diversity: -0.12";
    "Uniform sentences: +0.12"; "Varied sentences: -0.10";
    "Long sentences: +0.10"; "Short sentences: -0.08";
    "Formal transitions: +0.12";
    "Varied punctuation: -0.10";
    "Ellipsis usage: -0.08";
    "High contractions: -0.12"; "No contractions: +0.08";
    "Slang words: -0.10"; "Slang words: -0.20";
    "Repeated chars: -0.10";
    "Uppercase emphasis: -0.08";
    "Short text: reduced confidence";
    "Perfect structure: +0.10" ].

(** No rule of [rules] adds [e]. *)
Definition no_entry (e : string) (rules : list (list rule)) : bool :=
  negb (mem e (trace_of (List.concat rules))).

(** Only the rules of step [i] add [e]. *)
Fixpoint only_at (i : nat) (e : string) (rules : list (list rule)) : bool :=
  match rules, i with
  | [], _ => true
  | _ :: rest, O => no_entry e rest
  | c :: rest, S i' => no_entry e [c] && only_at i' e rest
  end.

(** Every rule adds at most one entry. *)
Definition single_entries (rules : list (list rule)) : bool :=
  forallb (forallb (fun r : rule => (List.length (snd r) <=? 1)%nat)) rules.

(** ** The explanation and the trace *)

(** The conditions that [get_explanation] tests in each branch. *)
Definition ai_conditions (features : FeatureSet) : list bool :=
  [ 0 <? ai_phrase_count features;
    2 <? formal_transition_count features;
    (lexical_diversity features >? 0.75)%f64;
    (avg_sentence_length features >? 25)%f64;
    num_lt (sentence_length_variance features) 10 && (2 <? sentence_count features);
    (contraction_count features =? 0) && (50 <? word_count features) ].

Definition human_conditions (features : FeatureSet) : list bool :=
  [ 0 <? slang_count features;
    0 <? repeated_chars features;
    (0 <? exclamation_count features) || (1 <? question_count features);
    0 <? contraction_count features;
    num_gt (sentence_length_variance features) 30;
    (lexical_diversity features <? 0.65)%f64 ].

(** The specific clauses of each branch, in the order they are tested. *)
Definition ai_specific : list string :=
  [ "Contains typical AI assistant phrases";
    "Uses formal transitions like 'furthermore' and 'moreover'";
    "High vocabulary diversity typical of AI";
    "Consistently long, complex sentences";
    "Very uniform sentence structure";
    "Formal tone with no contractions" ].

Definition human_specific : list string :=
  [ "Uses informal language and slang";
    "Contains emotional expressions with repeated characters";
    "Varied punctuation suggests human writing";
    "Natural use of contractions";
    "Sentence lengths vary naturally";
    "Natural word repetition patterns" ].

(** The clauses whose condition holds. *)
Fixpoint chosen (conditions : list bool) (clauses : list string) : list string :=
  match conditions, clauses with
  | b :: conditions', c :: clauses' =>
      if b then c :: chosen conditions' clauses' else chosen conditions' clauses'
  | _, _ => []
  end.

(** ** What the scorer reads *)

(** [features] with another [slang_count], every other feature fixed. *)
Definition with_slang_count (features : FeatureSet) (c : Z) : FeatureSet := {|
  word_count := word_count features;
  char_count := char_count features;
  avg_word_length := avg_word_length features;
  sentence_count := sentence_count features;
  avg_sentence_length := avg_sentence_length features;
  sentence_length_variance := sentence_length_variance features;
  lexical_diversity := lexical_diversity features;
  ai_phrase_count := ai_phrase_count features;
  exclamation_count := exclamation_count features;
  question_count := question_count features;
  ellipsis_count := ellipsis_count features;
  comma_count := comma_count features;
  uppercase_word_ratio := uppercase_word_ratio features;
  contraction_count := contraction_count features;
  slang_count := c;
  repeated_chars := repeated_chars features;
  formal_transition_count := formal_transition_count features
|}.

(** [features] with other values for the three features that describe the
    size of the text and its commas. *)
Definition with_size (features : FeatureSet) (chars : Z) (word_length : float) (commas : Z)
  : FeatureSet := {|
  word_count := word_count features;
  char_count := chars;
  avg_word_length := word_length;
  sentence_count := sentence_count features;
  avg_sentence_length := avg_sentence_length features;
  sentence_length_variance := sentence_length_variance features;
  lexical_diversity := lexical_diversity features;
  ai_phrase_count := ai_phrase_count features;
  exclamation_count := exclamation_count features;
  question_count := question_count features;
  ellipsis_count := ellipsis_count features;
  comma_count := commas;
  uppercase_word_ratio := uppercase_word_ratio features;
  contraction_count := contraction_count features;
  slang_count := slang_count features;
  repeated_chars := repeated_chars features;
  formal_transition_count := formal_transition_count features
|}.

(** ** Short texts *)

(** [s] succeeds on [features], and what it does there is one of [rules]. *)
Definition acts_on (features : FeatureSet) (s : step) (rules : list rule) : Prop :=
  exists r,
    In r rules /\
    forall score factors,
      s features (score, factors)
        = inr (apply_adj (fst r) score, (factors ++ snd r)%list).

(** The rules the steps choose from when the text has fewer than 30 words:
    the no-contractions rule needs more than 50 words, the short-text rule
    fires, and the perfect-structure rule needs more than 40 words. *)
Definition short_text_rules : list (list rule) :=
  (firstn 7 scorer_rules
   ++ [ [ (Keep, []); (Minus 0.12%f64, ["High contractions: -0.12"]) ] ]
   ++ firstn 3 (skipn 8 scorer_rules)
   ++ [ [ (Damp, ["Short text: reduced confidence"]) ];
        [ (Keep, []) ];
        [ (Clamp, []) ] ])%list.

(** The bounds on the score of a short text. *)
Definition p_0_945 : PrimFloat.float := Eval vm_compute in FloatOps.SF2Prim 0.945%f64.
Definition p_0_055 : PrimFloat.float := Eval vm_compute in FloatOps.SF2Prim 0.055%f64.

Definition fast_short_ok (x : PrimFloat.float) : bool :=
  PrimFloat.leb x p_0_945 && PrimFloat.leb p_0_055 (PrimFloat.sub p_one x).

(** * Properties *)

(** ** Binary64 facts

    What is needed of rounding: the product of an integer that is at least
    2 with a normal constant is not below twice the constant. *)

Lemma digits2_pos_bounds (p : positive) :
  2 ^ (Zpos (digits2_pos p) - 1) <= Zpos p < 2 ^ Zpos (digits2_pos p).
Proof.
  induction p as [p IH | p IH |]; cbn [digits2_pos].
  - rewrite Pos2Z.inj_succ.
    replace (Z.succ (Zpos (digits2_pos p)) - 1) with (Z.succ (Zpos (digits2_pos p) - 1)) by lia.
    rewrite !Z.pow_succ_r by lia. lia.
  - rewrite Pos2Z.inj_succ.
    replace (Z.succ (Zpos (digits2_pos p)) - 1) with (Z.succ (Zpos (digits2_pos p) - 1)) by lia.
    rewrite !Z.pow_succ_r by lia. lia.
  - cbn. lia.
Qed.

Lemma digits2_pos_unique (p : positive) (k : Z) :
  2 ^ (k - 1) <= Zpos p < 2 ^ k -> Zpos (digits2_pos p) = k.
Proof.
  intros [Hlo Hhi].
  pose proof (digits2_pos_bounds p) as [Glo Ghi].
  assert (0 < k).
  { destruct (Z.ltb_spec 0 k); [assumption|].
    assert (2 ^ k <= 2 ^ 0) by (destruct (Z.ltb_spec k 0); [rewrite Z.pow_neg_r by lia; cbn; lia | apply Z.pow_le_mono_r; lia]).
    cbn in *. lia. }
  assert (k - 1 < Zpos (digits2_pos p)).
  { apply (Z.pow_lt_mono_r_iff 2); lia. }
  assert (Zpos (digits2_pos p) - 1 < k).
  { apply (Z.pow_lt_mono_r_iff 2); lia. }
  lia.
Qed.

Lemma shr_1_m (r : shr_record) :
  0 <= shr_m r -> shr_m (shr_1 r) = shr_m r / 2.
Proof.
  destruct r as [m r s]; cbn [shr_m]. intros Hm.
  destruct m as [| p | p]; [reflexivity | | lia].
  destruct p as [p | p |]; cbn [shr_1 shr_m].
  - rewrite Pos2Z.inj_xI. apply Z.div_unique with (r := 1); lia.
  - rewrite Pos2Z.inj_xO. apply Z.div_unique with (r := 0); lia.
  - reflexivity.
Qed.

Lemma shr_1_nonneg (r : shr_record) : 0 <= shr_m r -> 0 <= shr_m (shr_1 r).
Proof.
  intros H. rewrite shr_1_m by assumption. apply Z.div_pos; lia.
Qed.

Lemma iter_shr_1_m (p : positive) :
  forall r, 0 <= shr_m r ->
    0 <= shr_m (iter_pos shr_1 p r) /\
    shr_m (iter_pos shr_1 p r) = shr_m r / 2 ^ Zpos p.
Proof.
  induction p as [p IH | p IH |]; intros r Hr; cbn [iter_pos].
  - pose proof (shr_1_nonneg r Hr) as H1.
    destruct (IH _ H1) as [H2 E2].
    destruct (IH _ H2) as [H3 E3].
    split; [assumption|].
    rewrite E3, E2, shr_1_m by assumption.
    rewrite !Z.div_div by lia.
    f_equal.
    replace (Zpos p~1) with (1 + Zpos p + Zpos p) by lia.
    rewrite !Z.pow_add_r by lia. lia.
  - destruct (IH _ Hr) as [H2 E2].
    destruct (IH _ H2) as [H3 E3].
    split; [assumption|].
    rewrite E3, E2.
    rewrite !Z.div_div by lia.
    f_equal.
    replace (Zpos p~0) with (Zpos p + Zpos p) by lia.
    rewrite !Z.pow_add_r by lia. lia.
  - split; [apply shr_1_nonneg; assumption|].
    rewrite shr_1_m by assumption. reflexivity.
Qed.

Lemma round_nearest_even_bounds (m : Z) (l : location) :
  m <= round_nearest_even m l <= m + 1.
Proof.
  destruct l as [| [| |]]; cbn [round_nearest_even]; try lia.
  destruct (Z.even m); lia.
Qed.

Lemma fexp_normal (x : Z) :
  emin F64.prec F64.emax <= x - 53 -> fexp F64.prec F64.emax x = x - 53.
Proof.
  unfold fexp, F64.prec. intros H. lia.
Qed.

Lemma emin64 : emin F64.prec F64.emax = -1074.
Proof. reflexivity. Qed.

Lemma renormalize (m2 e1 : Z) :
  2 ^ 52 <= m2 <= 2 ^ 53 -> -1074 <= e1 ->
  exists r e2, shr_fexp F64.prec F64.emax m2 e1 loc_Exact = (r, e2) /\
    ((m2 < 2 ^ 53 /\ shr_m r = m2 /\ e2 = e1) \/
     (m2 = 2 ^ 53 /\ shr_m r = 2 ^ 52 /\ e2 = e1 + 1)).
Proof.
  intros Hm He.
  destruct m2 as [| p | p]; [cbn in Hm; lia | | cbn in Hm; lia].
  unfold shr_fexp. cbn [Zdigits2 shr_record_of_loc].
  destruct (Z.eq_dec (Zpos p) (2 ^ 53)) as [E | NE].
  - assert (Hd : Zpos (digits2_pos p) = 54).
    { apply digits2_pos_unique. rewrite E. cbn. lia. }
    rewrite Hd, fexp_normal by (rewrite emin64; lia).
    replace (54 + e1 - 53 - e1) with 1 by lia.
    eexists _, _. split; [reflexivity|]. right.
    split; [assumption|]. split; [|reflexivity].
    cbn [iter_pos]. rewrite shr_1_m by (cbn; lia). cbn [shr_m]. rewrite E. reflexivity.
  - assert (Hd : Zpos (digits2_pos p) = 53).
    { apply digits2_pos_unique. change (53 - 1) with 52. lia. }
    rewrite Hd, fexp_normal by (rewrite emin64; lia).
    replace (53 + e1 - 53 - e1) with 0 by lia.
    eexists _, _. split; [reflexivity|]. left.
    split; [lia|]. split; reflexivity.
Qed.

Lemma round_exact_shape (m : positive) (e : Z) :
  let d := Zpos (digits2_pos m) in
  53 <= d -> -1074 <= d + e - 53 ->
  binary_round_aux F64.prec F64.emax false (Zpos m) e loc_Exact = S754_infinity false \/
  exists m' e',
    binary_round_aux F64.prec F64.emax false (Zpos m) e loc_Exact = S754_finite false m' e' /\
    Zpos (digits2_pos m') = 53 /\
    e + d - 53 <= e' /\
    (e' = e + d - 53 -> Zpos m / 2 ^ (d - 53) <= Zpos m').
Proof.
  intros d Hd He.
  pose proof (digits2_pos_bounds m) as Hb. fold d in Hb.
  (* the first shift brings the significand to 53 bits *)
  assert (H1 : exists r1, shr_fexp F64.prec F64.emax (Zpos m) e loc_Exact = (r1, e + d - 53) /\
                          shr_m r1 = Zpos m / 2 ^ (d - 53)).
  { unfold shr_fexp. cbn [Zdigits2 shr_record_of_loc]. fold d.
    rewrite fexp_normal by (rewrite emin64; lia).
    destruct (Z.eq_dec d 53) as [E | NE].
    - replace (d + e - 53 - e) with 0 by lia. cbn [shr].
      eexists. split; [f_equal; lia|]. cbn [shr_m].
      rewrite E. cbn. rewrite Z.div_1_r. reflexivity.
    - assert (Hn : exists n, d + e - 53 - e = Zpos n) by
        (destruct (d + e - 53 - e) as [| n | n] eqn:En; [lia | eauto | lia]).
      destruct Hn as [n Hn]. rewrite Hn. cbn [shr].
      eexists. split; [f_equal; lia|].
      destruct (iter_shr_1_m n {| shr_m := Zpos m; shr_r := false; shr_s := false |}) as [_ E1];
        [cbn; lia|].
      rewrite E1. cbn [shr_m]. f_equal. f_equal. lia. }
  destruct H1 as (r1 & E1 & Em1).
  assert (Hm1 : 2 ^ 52 <= shr_m r1 < 2 ^ 53).
  { rewrite Em1. split.
    - apply Z.div_le_lower_bound; [apply Z.pow_pos_nonneg; lia|].
      rewrite <- Z.pow_add_r by lia. replace (d - 53 + 52) with (d - 1) by lia. lia.
    - apply Z.div_lt_upper_bound; [apply Z.pow_pos_nonneg; lia|].
      rewrite <- Z.pow_add_r by lia. replace (d - 53 + 53) with d by lia. lia. }
  pose proof (round_nearest_even_bounds (shr_m r1) (loc_of_shr_record r1)) as Hr.
  set (m2 := round_nearest_even (shr_m r1) (loc_of_shr_record r1)) in *.
  destruct (renormalize m2 (e + d - 53)) as (r2 & e2 & E2 & Hcase); [lia | lia |].
  unfold binary_round_aux. rewrite E1. fold m2. rewrite E2.
  destruct Hcase as [(Hlt & Er2 & Ee2) | (Heq & Er2 & Ee2)]; rewrite Er2.
  - destruct m2 as [| p2 | p2]; [lia | | lia].
    destruct (e2 <=? F64.emax - F64.prec); [right | left; reflexivity].
    exists p2, e2. split; [reflexivity|].
    split; [apply digits2_pos_unique; change (53 - 1) with 52; lia|].
    split; [lia|]. intros _. rewrite <- Em1. lia.
  - change (2 ^ 52) with (Zpos 4503599627370496).
    destruct (e2 <=? F64.emax - F64.prec); [right | left; reflexivity].
    exists 4503599627370496%positive, e2. split; [reflexivity|].
    split; [reflexivity|]. split; lia.
Qed.

Lemma iter_xO_value (p k : positive) :
  Zpos (Pos.iter xO p k) = Zpos p * 2 ^ Zpos k.
Proof.
  induction k as [| k IH] using Pos.peano_ind.
  - cbn. lia.
  - rewrite Pos.iter_succ, Pos2Z.inj_xO, IH, Pos2Z.inj_succ, Z.pow_succ_r by lia. lia.
Qed.

(** [float(c)] for [c >= 2] is infinite or a normal double of exponent at
    least -51, that is, at least 2. *)
Lemma of_int_shape (c : Z) :
  2 <= c ->
  F64.of_int c = S754_infinity false \/
  exists mc ec, F64.of_int c = S754_finite false mc ec /\
                Zpos (digits2_pos mc) = 53 /\ -51 <= ec.
Proof.
  intros Hc. destruct c as [| p | p]; [lia | | lia].
  unfold F64.of_int, binary_normalize, binary_round.
  pose proof (digits2_pos_bounds p) as Hb.
  set (dp := Zpos (digits2_pos p)) in *.
  assert (Hdp : 2 <= dp).
  { destruct (Z.ltb_spec dp 2); [|assumption].
    assert (2 ^ dp <= 2 ^ 1) by (apply Z.pow_le_mono_r; lia). cbn in *. lia. }
  rewrite Z.add_0_r, fexp_normal by (rewrite emin64; lia).
  unfold shl_align. rewrite Z.sub_0_r.
  destruct (dp - 53) as [| k | k] eqn:Ek.
  - destruct (round_exact_shape p 0) as [Hinf | (m' & e' & E & Hd & He & _)];
      fold dp; try lia; [left; assumption | right].
    exists m', e'. fold dp in He. repeat split; [assumption | assumption | lia].
  - destruct (round_exact_shape p 0) as [Hinf | (m' & e' & E & Hd & He & _)];
      fold dp; try lia; [left; assumption | right].
    exists m', e'. fold dp in He. repeat split; [assumption | assumption | lia].
  - assert (Hd' : Zpos (digits2_pos (Pos.iter xO p k)) = 53).
    { apply digits2_pos_unique. rewrite iter_xO_value.
      replace (Zpos k) with (53 - dp) by lia.
      assert (E52 : 2 ^ (53 - 1) = 2 ^ (dp - 1) * 2 ^ (53 - dp))
        by (rewrite <- Z.pow_add_r by lia; f_equal; lia).
      assert (E53 : 2 ^ 53 = 2 ^ dp * 2 ^ (53 - dp))
        by (rewrite <- Z.pow_add_r by lia; f_equal; lia).
      rewrite E52, E53.
      assert (0 < 2 ^ (53 - dp)) by (apply Z.pow_pos_nonneg; lia). nia. }
    destruct (round_exact_shape (Pos.iter xO p k) (Zneg k))
      as [Hinf | (m' & e' & E & Hd & He & _)];
      rewrite ?Hd'; try lia; [left; assumption | right].
    exists m', e'. rewrite Hd' in He. repeat split; [assumption | assumption | lia].
Qed.

(** A double that is at least 2, times a normal double [k], is not below
    any double of the binade of [2k] whose significand does not exceed that
    of [k]. *)
Lemma mul_lower (mc : positive) (ec : Z) (mk : positive) (ek : Z) (mT : positive) :
  Zpos (digits2_pos mc) = 53 -> -51 <= ec ->
  Zpos (digits2_pos mk) = 53 -> -1000 <= ek ->
  (mT <= mk)%positive ->
  F64.ltb (F64.mul (S754_finite false mc ec) (S754_finite false mk ek))
          (S754_finite false mT (ek + 1)) = false.
Proof.
  intros Hdc Hec Hdk Hek HT.
  unfold F64.mul, SFmul. cbn [xorb].
  pose proof (digits2_pos_bounds mc) as Hbc. rewrite Hdc in Hbc.
  pose proof (digits2_pos_bounds mk) as Hbk. rewrite Hdk in Hbk.
  change (53 - 1) with 52 in *.
  pose proof (digits2_pos_bounds (mc * mk)) as Hb.
  set (d := Zpos (digits2_pos (mc * mk))) in *.
  rewrite Pos2Z.inj_mul in Hb.
  assert (H104 : 2 ^ 104 <= Zpos mc * Zpos mk).
  { change (2 ^ 104) with (2 ^ 52 * 2 ^ 52). nia. }
  assert (Hd : 105 <= d).
  { destruct (Z.ltb_spec d 105); [|assumption].
    assert (2 ^ d <= 2 ^ 104) by (apply Z.pow_le_mono_r; lia). lia. }
  destruct (round_exact_shape (mc * mk) (ec + ek))
    as [Hinf | (m' & e' & E & Hd' & He & Hm)]; fold d; try lia.
  - rewrite Hinf. reflexivity.
  - rewrite E. fold d in He, Hm.
    unfold F64.ltb, SFltb, SFcompare.
    destruct (Z.compare_spec e' (ek + 1)) as [Heq | Hlt | Hgt]; [| lia | reflexivity].
    rewrite Pos.compare_cont_spec. cbn [Pos.switch_Eq].
    assert (Hd105 : d = 105) by lia.
    assert (Hle : Zpos mk <= Zpos m').
    { etransitivity; [| apply Hm; lia].
      rewrite Hd105. change (105 - 53) with 52.
      apply Z.div_le_lower_bound; [lia|].
      rewrite Pos2Z.inj_mul. nia. }
    destruct (Pos.compare_spec m' mT) as [| Hlt |]; [reflexivity | lia | reflexivity].
Qed.

(** From two phrases on the boost is capped at 0.25, and from two slang
    words on at 0.20. *)
Lemma ai_phrase_boost_cap (c : Z) :
  2 <= c -> (F64.min 0.25 (F64.of_int c * 0.15))%f64 = 0.25%f64.
Proof.
  intros Hc. unfold F64.min.
  destruct (of_int_shape c Hc) as [E | (mc & ec & E & Hd & He)]; rewrite E.
  - reflexivity.
  - change 0.25%f64 with (S754_finite false 4503599627370496 (-55 + 1)).
    rewrite mul_lower; [reflexivity | assumption | assumption | reflexivity | lia | ].
    apply Pos.leb_le. reflexivity.
Qed.

Lemma slang_boost_cap (c : Z) :
  2 <= c -> (F64.min 0.20 (F64.of_int c * 0.10))%f64 = 0.20%f64.
Proof.
  intros Hc. unfold F64.min.
  destruct (of_int_shape c Hc) as [E | (mc & ec & E & Hd & He)]; rewrite E.
  - reflexivity.
  - change 0.20%f64 with (S754_finite false 7205759403792794 (-56 + 1)).
    rewrite mul_lower; [reflexivity | assumption | assumption | reflexivity | lia | ].
    apply Pos.leb_le. reflexivity.
Qed.

(** ** The steps of the scorer as adjustments *)

(** A division by [max(n, 1)] never raises. *)
Lemma truediv_guarded (a n : Z) :
  F64.truediv a (Z.max n 1) =
  inr (F64.div (F64.exact_int a) (F64.exact_int (Z.max n 1))).
Proof.
  unfold F64.truediv.
  destruct (Z.eqb_spec (Z.max n 1) 0) as [E | _]; [lia | reflexivity].
Qed.

(** The step takes the rule with adjustment [a] and entries [e]; [quiet]:
    it takes the rule that keeps the score. *)
Ltac fires a e :=
  exists (a, e); split;
  [ cbn; tauto
  | intros; cbn [apply_adj fst snd]; rewrite ?app_nil_r; reflexivity ].

Ltac quiet := fires Keep (@nil string).

Lemma acts_ai_phrases :
  acts step_ai_phrases (nth 0 scorer_rules []).
Proof.
  intros f. unfold step_ai_phrases.
  destruct (Z.ltb_spec 0 (ai_phrase_count f)) as [Hpos | _]; [| quiet].
  destruct (Z.eq_dec (ai_phrase_count f) 1) as [E | NE].
  - rewrite E. fires (Plus 0.15%f64) ["AI phrases: +0.15"].
  - rewrite ai_phrase_boost_cap by lia.
    fires (Plus 0.25%f64) ["AI phrases: +0.25"].
Qed.

Lemma acts_lexical_diversity :
  acts step_lexical_diversity (nth 1 scorer_rules []).
Proof.
  intros f. unfold step_lexical_diversity.
  destruct (_ >? _)%f64; [fires (Plus 0.15%f64) ["High lexical diversity: +0.15"] |].
  destruct (_ <? _)%f64; [fires (Minus 0.12%f64) ["Low lexical diversity: -0.12"] | quiet].
Qed.

Lemma acts_sentence_uniformity :
  acts step_sentence_uniformity (nth 2 scorer_rules []).
Proof.
  intros f. unfold step_sentence_uniformity.
  destruct (_ && _); [fires (Plus 0.12%f64) ["Uniform sentences: +0.12"] |].
  destruct (num_gt _ _); [fires (Minus 0.10%f64) ["Varied sentences: -0.10"] | quiet].
Qed.

Lemma acts_sentence_length :
  acts step_sentence_length (nth 3 scorer_rules []).
Proof.
  intros f. unfold step_sentence_length.
  destruct (_ >? _)%f64; [fires (Plus 0.10%f64) ["Long sentences: +0.10"] |].
  destruct (_ <? _)%f64; [fires (Minus 0.08%f64) ["Short sentences: -0.08"] | quiet].
Qed.

Lemma acts_formal_transitions :
  acts step_formal_transitions (nth 4 scorer_rules []).
Proof.
  intros f. unfold step_formal_transitions.
  destruct (_ <? _); [fires (Plus 0.12%f64) ["Formal transitions: +0.12"] | quiet].
Qed.

Lemma acts_punctuation : acts step_punctuation (nth 5 scorer_rules []).
Proof.
  intros f. unfold step_punctuation.
  destruct (_ || _); [fires (Minus 0.10%f64) ["Varied punctuation: -0.10"] | quiet].
Qed.

Lemma acts_ellipsis : acts step_ellipsis (nth 6 scorer_rules []).
Proof.
  intros f. unfold step_ellipsis.
  destruct (_ <? _); [fires (Minus 0.08%f64) ["Ellipsis usage: -0.08"] | quiet].
Qed.

Lemma acts_contractions :
  acts step_contractions (nth 7 scorer_rules []).
Proof.
  intros f. unfold step_contractions.
  rewrite truediv_guarded. cbn [bind].
  destruct (_ >? _)%f64; [fires (Minus 0.12%f64) ["High contractions: -0.12"] |].
  destruct (_ && _); [fires (Plus 0.08%f64) ["No contractions: +0.08"] | quiet].
Qed.

Lemma acts_slang : acts step_slang (nth 8 scorer_rules []).
Proof.
  intros f. unfold step_slang.
  destruct (Z.ltb_spec 0 (slang_count f)) as [Hpos | _]; [| quiet].
  destruct (Z.eq_dec (slang_count f) 1) as [E | NE].
  - rewrite E. fires (Minus 0.10%f64) ["Slang words: -0.10"].
  - rewrite slang_boost_cap by lia.
    fires (Minus 0.20%f64) ["Slang words: -0.20"].
Qed.

Lemma acts_repeated_chars : acts step_repeated_chars (nth 9 scorer_rules []).
Proof.
  intros f. unfold step_repeated_chars.
  destruct (_ <? _); [fires (Minus 0.10%f64) ["Repeated chars: -0.10"] | quiet].
Qed.

Lemma acts_uppercase : acts step_uppercase (nth 10 scorer_rules []).
Proof.
  intros f. unfold step_uppercase.
  destruct (_ >? _)%f64; [fires (Minus 0.08%f64) ["Uppercase emphasis: -0.08"] | quiet].
Qed.

Lemma acts_short_text : acts step_short_text (nth 11 scorer_rules []).
Proof.
  intros f. unfold step_short_text.
  destruct (_ <? _); [fires Damp ["Short text: reduced confidence"] | quiet].
Qed.

Lemma acts_perfect_structure : acts step_perfect_structure (nth 12 scorer_rules []).
Proof.
  intros f. unfold step_perfect_structure.
  destruct (_ && _); [fires (Plus 0.10%f64) ["Perfect structure: +0.10"] | quiet].
Qed.

Lemma acts_clamp : acts step_clamp (nth 13 scorer_rules []).
Proof.
  intros f. unfold step_clamp. fires Clamp (@nil string).
Qed.

(** Every step of the scorer acts by its rules. *)
Lemma scorer_steps_act : Forall2 acts scorer_steps scorer_rules.
Proof.
  unfold scorer_steps, scorer_rules.
  repeat first
    [ apply Forall2_nil
    | apply Forall2_cons ];
  auto using acts_ai_phrases, acts_lexical_diversity, acts_sentence_uniformity,
    acts_sentence_length, acts_formal_transitions, acts_punctuation, acts_ellipsis,
    acts_contractions, acts_slang, acts_repeated_chars, acts_uppercase,
    acts_short_text, acts_perfect_structure, acts_clamp.
Qed.

(** A run of steps that act by rules is the fold of the rules they choose;
    the choice depends on the features only. *)
Lemma run_steps_act (steps : list step) (rules : list (list rule)) :
  Forall2 acts steps rules ->
  forall features, exists rs,
    Forall2 (fun r c => In r c) rs rules /\
    forall score factors,
      run_steps steps features (score, factors)
        = inr (apply_rules rs score, (factors ++ trace_of rs)%list).
Proof.
  induction 1 as [| s c steps rules Hs _ IH]; intros f.
  - exists []. split; [constructor|]. intros score factors.
    cbn. rewrite app_nil_r. reflexivity.
  - destruct (Hs f) as (r & Hr & Hrun).
    destruct (IH f) as (rs & Hrs & Hrest).
    exists (r :: rs). split; [constructor; assumption|].
    intros score factors. cbn [run_steps]. rewrite Hrun. cbn [bind].
    rewrite Hrest. unfold trace_of. cbn [List.map List.concat].
    rewrite app_assoc. reflexivity.
Qed.

(** What [check] accepts holds of every outcome. *)
Section CheckSound.
Context {A B : Type}.
Variable act : B -> A -> A.
Variable P : A -> bool.

Lemma check_sound (choices : list (list B)) :
  forall bs x,
    check act P choices x = true ->
    Forall2 (fun b c => In b c) bs choices ->
    P (fold_left (fun y b => act b y) bs x) = true.
Proof.
  induction choices as [| c rest IH]; intros bs x Hcheck Hbs.
  - inversion Hbs; subst. exact Hcheck.
  - inversion Hbs as [| b c' bs' rest' Hb Hrest]; subst.
    cbn [check] in Hcheck. rewrite forallb_forall in Hcheck.
    cbn [fold_left]. apply IH; [apply Hcheck; assumption | assumption].
Qed.
End CheckSound.

(** ** Primitive floats *)

(** The primitive operations compute the operations of the model. *)
Lemma float_eqb_eq (x y : float) : float_eqb x y = true -> x = y.
Proof.
  destruct x as [s | s | | s m e], y as [s' | s' | | s' m' e']; cbn; try discriminate.
  - intros H. apply Bool.eqb_prop in H. congruence.
  - intros H. apply Bool.eqb_prop in H. congruence.
  - reflexivity.
  - intros H. apply andb_prop in H. destruct H as [H He].
    apply andb_prop in H. destruct H as [Hs Hm].
    apply Bool.eqb_prop in Hs. apply Pos.eqb_eq in Hm. apply Z.eqb_eq in He. congruence.
Qed.

Lemma p_add_spec (x y : PrimFloat.float) :
  FloatOps.Prim2SF (PrimFloat.add x y)
  = (FloatOps.Prim2SF x + FloatOps.Prim2SF y)%f64.
Proof. apply FloatAxioms.add_spec. Qed.

Lemma p_sub_spec (x y : PrimFloat.float) :
  FloatOps.Prim2SF (PrimFloat.sub x y)
  = (FloatOps.Prim2SF x - FloatOps.Prim2SF y)%f64.
Proof. apply FloatAxioms.sub_spec. Qed.

Lemma p_mul_spec (x y : PrimFloat.float) :
  FloatOps.Prim2SF (PrimFloat.mul x y)
  = (FloatOps.Prim2SF x * FloatOps.Prim2SF y)%f64.
Proof. apply FloatAxioms.mul_spec. Qed.

Lemma p_ltb_spec (x y : PrimFloat.float) :
  PrimFloat.ltb x y = (FloatOps.Prim2SF x <? FloatOps.Prim2SF y)%f64.
Proof. apply FloatAxioms.ltb_spec. Qed.

Lemma p_leb_spec (x y : PrimFloat.float) :
  PrimFloat.leb x y = (FloatOps.Prim2SF x <=? FloatOps.Prim2SF y)%f64.
Proof. apply FloatAxioms.leb_spec. Qed.

Lemma p_eqb_spec (x y : PrimFloat.float) :
  PrimFloat.eqb x y = (FloatOps.Prim2SF x =? FloatOps.Prim2SF y)%f64.
Proof. apply FloatAxioms.eqb_spec. Qed.

Lemma p_min_spec (a b : PrimFloat.float) :
  FloatOps.Prim2SF (p_min a b) = F64.min (FloatOps.Prim2SF a) (FloatOps.Prim2SF b).
Proof.
  unfold p_min, F64.min. rewrite p_ltb_spec.
  destruct (_ <? _)%f64; reflexivity.
Qed.

Lemma p_max_spec (a b : PrimFloat.float) :
  FloatOps.Prim2SF (p_max a b) = F64.max (FloatOps.Prim2SF a) (FloatOps.Prim2SF b).
Proof.
  unfold p_max, F64.max. rewrite p_ltb_spec.
  destruct (_ <? _)%f64; reflexivity.
Qed.

Lemma fast_apply_spec (a : adj) (x : PrimFloat.float) :
  adj_exact a = true ->
  FloatOps.Prim2SF (fast_apply (to_fast a) x) = apply_adj a (FloatOps.Prim2SF x).
Proof.
  destruct a as [| d | d | |]; cbn [adj_exact to_fast fast_apply apply_adj]; intros H.
  - reflexivity.
  - apply float_eqb_eq in H. rewrite p_add_spec, H. reflexivity.
  - apply float_eqb_eq in H. rewrite p_sub_spec, H. reflexivity.
  - rewrite p_add_spec, p_mul_spec, p_sub_spec. reflexivity.
  - rewrite p_max_spec, p_min_spec. reflexivity.
Qed.

Lemma rules_exact_In (rules : list (list rule)) (rs : list rule) :
  rules_exact rules = true ->
  Forall2 (fun r c => In r c) rs rules ->
  Forall (fun r => adj_exact (fst r) = true) rs.
Proof.
  unfold rules_exact. intros Hex H.
  induction H as [| r c rs rules Hr _ IH]; [constructor|].
  cbn [forallb] in Hex. apply andb_prop in Hex. destruct Hex as [Hc Hrest].
  constructor; [| apply IH; assumption].
  rewrite forallb_forall in Hc. apply Hc. assumption.
Qed.

Lemma fast_rules_In (rules : list (list rule)) (rs : list rule) :
  Forall2 (fun r c => In r c) rs rules ->
  Forall2 (fun b c => In b c) (List.map fast_rule rs) (fast_rules rules).
Proof.
  unfold fast_rules. induction 1 as [| r c rs rules Hr _ IH]; cbn [List.map]; constructor.
  - apply in_map. assumption.
  - assumption.
Qed.

(** The primitive run of exact rules is the run of the model. *)
Lemma fast_apply_rules_spec (rs : list rule) (x : PrimFloat.float) :
  Forall (fun r => adj_exact (fst r) = true) rs ->
  FloatOps.Prim2SF (fast_apply_rules rs x) = apply_rules rs (FloatOps.Prim2SF x).
Proof.
  unfold fast_apply_rules, apply_rules. intros H. revert x.
  induction H as [| r rs Hr _ IH]; intros x; cbn [List.map fold_left]; [reflexivity|].
  rewrite IH. unfold fast_rule. rewrite fast_apply_spec by assumption. reflexivity.
Qed.

(** The constants of the scorer are doubles. *)
Lemma scorer_rules_exact : rules_exact scorer_rules = true.
Proof. vm_compute. reflexivity. Qed.

Lemma fast_final_ok_spec (x : PrimFloat.float) :
  fast_final_ok x =
  sums_to_one (FloatOps.Prim2SF x) && in_clamp_range (FloatOps.Prim2SF x)
  && confidence_in_range (FloatOps.Prim2SF x).
Proof.
  unfold fast_final_ok, sums_to_one, in_clamp_range, confidence_in_range.
  cbv zeta. rewrite p_eqb_spec, !p_leb_spec, p_max_spec, p_add_spec, !p_sub_spec.
  reflexivity.
Qed.

(** Every final score the scorer can produce sums to one with its
    complement, lies in the clamp range, and gives a confidence in
    [0.5, 0.95]. *)
Lemma final_scores_checked :
  check fast_apply fast_final_ok (fast_rules scorer_rules) p_half = true.
Proof. vm_cast_no_check (eq_refl true). Qed.

(** The scorer returns on every feature set, with a score that has the
    three properties. *)
Lemma calculate_ai_score_total (text : string) (features : FeatureSet) :
  exists score factors,
    calculate_ai_score text features = inr (score, (1 - score)%f64, factors) /\
    sums_to_one score = true /\
    in_clamp_range score = true /\
    confidence_in_range score = true.
Proof.
  destruct (run_steps_act _ _ scorer_steps_act features) as (rs & Hrs & Hrun).
  exists (apply_rules rs 0.5%f64), (trace_of rs).
  split.
  - unfold calculate_ai_score, score_with. unfold float in *.
    rewrite Hrun. reflexivity.
  - pose proof (check_sound fast_apply fast_final_ok _ _ _ final_scores_checked
                  (fast_rules_In _ _ Hrs)) as H.
    fold (fast_apply_rules rs p_half) in H.
    rewrite fast_final_ok_spec, fast_apply_rules_spec in H
      by (apply (rules_exact_In scorer_rules); [exact scorer_rules_exact | exact Hrs]).
    change (FloatOps.Prim2SF p_half) with 0.5%f64 in H.
    apply andb_prop in H. destruct H as [H H3].
    apply andb_prop in H. destruct H as [H1 H2]. auto.
Qed.

(** The extractor returns on every text. *)
Lemma analyze_text_features_total (text : string) :
  exists features, analyze_text_features text = inr features.
Proof.
  unfold analyze_text_features.
  rewrite !truediv_guarded. cbn [bind].
  eexists. reflexivity.
Qed.

(** ** The request handler *)

Lemma is_empty_spec (s : string) : Str.is_empty s = true <-> s = "".
Proof.
  destruct s; cbn; split; intros H; try reflexivity; discriminate.
Qed.

(** What [detect_text] returns once the validation is passed. *)
Lemma detect_text_accepted (input_text : string) :
  ~ rejected (Str.strip input_text) ->
  exists features score factors,
    analyze_text_features (Str.strip input_text) = inr features /\
    calculate_ai_score (Str.strip input_text) features
      = inr (score, (1 - score)%f64, factors) /\
    sums_to_one score = true /\
    in_clamp_range score = true /\
    confidence_in_range score = true /\
    detect_text input_text = inr {|
      is_ai_generated := (score >? 0.5)%f64;
      confidence := F64.max score (1 - score)%f64;
      human_probability := (1 - score)%f64;
      ai_probability := score;
      explanation :=
        get_explanation (score >? 0.5)%f64 (F64.max score (1 - score)%f64) features factors;
      features := features
    |}.
Proof.
  intros Hok. unfold rejected in Hok.
  destruct (analyze_text_features_total (Str.strip input_text)) as (fs & Hfs).
  destruct (calculate_ai_score_total (Str.strip input_text) fs)
    as (score & factors & Hscore & H1 & H2 & H3).
  exists fs, score, factors. repeat (split; [assumption|]).
  unfold detect_text.
  destruct (Str.is_empty (Str.strip input_text)) eqn:Hempty.
  { apply is_empty_spec in Hempty. tauto. }
  destruct (Z.ltb_spec (Str.len (Str.strip input_text)) 10); [tauto|].
  destruct (Z.ltb_spec (len (Str.split (Str.strip input_text))) 20); [tauto|].
  rewrite Hfs. cbn [bind]. rewrite Hscore. reflexivity.
Qed.

(** What [detect_text] raises when the validation fails. *)
Lemma detect_text_rejected (input_text : string) :
  rejected (Str.strip input_text) ->
  exists detail,
    detect_text input_text = inl (HTTPException 400 detail) /\
    In detail [msg_empty; msg_too_short; msg_too_few_words].
Proof.
  intros Hrej. unfold detect_text.
  destruct (Str.is_empty (Str.strip input_text)) eqn:Hempty.
  { exists msg_empty. cbn. auto. }
  destruct (Z.ltb_spec (Str.len (Str.strip input_text)) 10).
  { exists msg_too_short. cbn. auto. }
  destruct (Z.ltb_spec (len (Str.split (Str.strip input_text))) 20).
  { exists msg_too_few_words. cbn. auto. }
  exfalso. destruct Hrej as [E | [? | ?]]; try lia.
  apply is_empty_spec in E. congruence.
Qed.

Lemma rejected_dec (text : string) : {rejected text} + {~ rejected text}.
Proof.
  unfold rejected.
  destruct (string_dec text "") as [? | ?]; [left; auto|].
  destruct (Z_lt_dec (Str.len text) 10); [left; auto|].
  destruct (Z_lt_dec (len (Str.split text)) 20); [left; auto|].
  right. tauto.
Qed.

(** Python's [==] with a positive finite double decides equality. *)
Lemma eqb_finite_eq (x : float) (m : positive) (e : Z) :
  (x =? S754_finite false m e)%f64 = true -> x = S754_finite false m e.
Proof.
  unfold F64.eqb, SFeqb, SFcompare.
  destruct x as [s | s | | s m' e']; try discriminate.
  - destruct s; discriminate.
  - destruct s; [discriminate|].
    destruct (Z.compare_spec e' e) as [-> | _ | _]; try discriminate.
    rewrite Pos.compare_cont_spec. cbn [Pos.switch_Eq].
    destruct (Pos.compare_spec m' m) as [-> | _ | _]; try discriminate.
    reflexivity.
Qed.

(** ** The probabilities, the validation and the boundary (C1, C5, C8, C10) *)

(** C1. For every input, the scorer returns, and the probabilities it
    returns satisfy [ai_probability + human_probability == 1.0] exactly with
    [ai_probability] in the closed interval [0.05, 0.95]: the score is
    clamped after all rule adjustments. *)
Theorem C1_probabilities_sum_to_one_and_clamped (text : string) (features : FeatureSet) :
  exists ai human factors,
    calculate_ai_score text features = inr (ai, human, factors) /\
    (ai + human =? 1)%f64 = true /\
    (0.05 <=? ai)%f64 = true /\
    (ai <=? 0.95)%f64 = true.
Proof.
  destruct (calculate_ai_score_total text features)
    as (score & factors & E & Hsum & Hrange & _).
  exists score, (1 - score)%f64, factors.
  unfold in_clamp_range in Hrange. apply andb_prop in Hrange.
  destruct Hrange as [Hlo Hhi].
  split; [exact E|]. split; [exact Hsum|]. split; assumption.
Qed.

(** C5. The endpoint answers with an HTTP 400 error exactly when the trimmed
    text is empty, shorter than 10 characters, or has fewer than 20 words,
    with the message of the first test that fails; in every other case
    feature extraction and scoring both complete and a response is
    returned. *)
Theorem C5_client_error_iff_rejected (input_text : string) :
  ((exists detail, detect_text input_text = inl (HTTPException 400 detail))
     <-> rejected (Str.strip input_text)) /\
  ((exists response, detect_text input_text = inr response)
     <-> ~ rejected (Str.strip input_text)) /\
  (Str.strip input_text = "" ->
     detect_text input_text = inl (HTTPException 400 msg_empty)) /\
  (Str.strip input_text <> "" -> Str.len (Str.strip input_text) < 10 ->
     detect_text input_text = inl (HTTPException 400 msg_too_short)) /\
  (Str.strip input_text <> "" -> 10 <= Str.len (Str.strip input_text) ->
     len (Str.split (Str.strip input_text)) < 20 ->
     detect_text input_text = inl (HTTPException 400 msg_too_few_words)).
Proof.
  assert (Hacc : ~ rejected (Str.strip input_text) ->
                 exists response, detect_text input_text = inr response).
  { intros H. destruct (detect_text_accepted _ H) as (? & ? & ? & _ & _ & _ & _ & _ & E).
    eexists. exact E. }
  split; [| split; [| split; [| split]]].
  - split.
    + intros [detail E]. destruct (rejected_dec (Str.strip input_text)) as [? | Hok];
        [assumption|]. destruct (Hacc Hok) as [r Er]. congruence.
    + intros H. destruct (detect_text_rejected _ H) as (detail & E & _). eauto.
  - split.
    + intros [r Er] H. destruct (detect_text_rejected _ H) as (detail & E & _). congruence.
    + exact Hacc.
  - intros E. unfold detect_text. rewrite E. reflexivity.
  - intros NE Hlen. unfold detect_text.
    destruct (Str.is_empty (Str.strip input_text)) eqn:Hempty;
      [apply is_empty_spec in Hempty; contradiction|].
    destruct (Z.ltb_spec (Str.len (Str.strip input_text)) 10); [reflexivity | lia].
  - intros NE Hlen Hwords. unfold detect_text.
    destruct (Str.is_empty (Str.strip input_text)) eqn:Hempty;
      [apply is_empty_spec in Hempty; contradiction|].
    destruct (Z.ltb_spec (Str.len (Str.strip input_text)) 10); [lia|].
    destruct (Z.ltb_spec (len (Str.split (Str.strip input_text))) 20); [reflexivity | lia].
Qed.

(** C8. For every input that passes validation, the confidence of the
    response is the larger of the two probabilities and lies in
    [0.5, 0.95]. *)
Theorem C8_confidence_is_max_and_bounded (input_text : string) (response : DetectionResponse) :
  detect_text input_text = inr response ->
  confidence response
    = F64.max (ai_probability response) (human_probability response) /\
  (0.5 <=? confidence response)%f64 = true /\
  (confidence response <=? 0.95)%f64 = true.
Proof.
  intros E.
  destruct (rejected_dec (Str.strip input_text)) as [Hrej | Hok].
  { destruct (detect_text_rejected _ Hrej) as (detail & E' & _). congruence. }
  destruct (detect_text_accepted _ Hok)
    as (fs & score & factors & _ & _ & _ & _ & Hconf & E').
  rewrite E' in E. injection E as <-. cbn [confidence ai_probability human_probability].
  unfold confidence_in_range in Hconf. apply andb_prop in Hconf.
  destruct Hconf as [Hlo Hhi]. auto.
Qed.

Lemma C8_witness :
  exists response,
    detect_text neutral_text = inr response /\
    confidence response
      = F64.max (ai_probability response) (human_probability response) /\
    (0.5 <=? confidence response)%f64 = true /\
    (confidence response <=? 0.95)%f64 = true.
Proof.
  eexists. split.
  - vm_compute. reflexivity.
  - apply (C8_confidence_is_max_and_bounded neutral_text). vm_compute. reflexivity.
Defined.

(** C10. At the decision boundary the label defaults to human: when the
    final [ai_probability] equals 0.5, [is_ai_generated] is false, the
    confidence is 0.5, and the explanation is the one of the human branch. *)
Theorem C10_boundary_defaults_to_human (input_text : string) (response : DetectionResponse) :
  detect_text input_text = inr response ->
  (ai_probability response =? 0.5)%f64 = true ->
  is_ai_generated response = false /\
  confidence response = 0.5%f64 /\
  explanation response
    = join ". " (human_clauses (features response)) ++ ". Confidence: 50.0%".
Proof.
  intros E Hhalf.
  destruct (rejected_dec (Str.strip input_text)) as [Hrej | Hok].
  { destruct (detect_text_rejected _ Hrej) as (detail & E' & _). congruence. }
  destruct (detect_text_accepted _ Hok)
    as (fs & score & factors & _ & _ & _ & _ & _ & E').
  rewrite E' in E. injection E as <-.
  cbn [ai_probability] in Hhalf. apply eqb_finite_eq in Hhalf. subst score.
  cbn [is_ai_generated confidence explanation features].
  repeat split.
Qed.

Lemma C10_witness :
  exists response,
    detect_text neutral_text = inr response /\
    (ai_probability response =? 0.5)%f64 = true /\
    is_ai_generated response = false /\
    confidence response = 0.5%f64 /\
    explanation response
      = join ". " (human_clauses (features response)) ++ ". Confidence: 50.0%".
Proof.
  eexists. split; [vm_compute; reflexivity|].
  split; [vm_compute; reflexivity|].
  apply (C10_boundary_defaults_to_human neutral_text); vm_compute; reflexivity.
Defined.

(** ** The extractor (C7, C9) *)

Lemma sum_from (l : list Z) (acc : Z) : fold_left Z.add l acc = acc + sum l.
Proof.
  unfold sum. revert acc.
  induction l as [| x l IH]; intros acc; cbn [fold_left]; [lia|].
  rewrite IH, (IH (0 + x)). lia.
Qed.

Lemma sum_cons (x : Z) (l : list Z) : sum (x :: l) = x + sum l.
Proof.
  unfold sum at 1. cbn [fold_left]. rewrite sum_from. lia.
Qed.

(** [count_if] counts every element of the list at most once. *)
Lemma count_if_filter {A : Type} (p : A -> bool) (l : list A) :
  count_if p l = len (filter p l).
Proof.
  unfold count_if, len.
  induction l as [| x l IH]; [reflexivity|].
  cbn [List.map filter]. rewrite sum_cons, IH.
  destruct (p x); cbn [List.length]; lia.
Qed.

Lemma count_if_bounds {A : Type} (p : A -> bool) (l : list A) :
  0 <= count_if p l <= len l.
Proof.
  rewrite count_if_filter. unfold len.
  pose proof (filter_length_le p l). lia.
Qed.


(** C9, as stated, fails: the phrase list has 22 entries and a text that
    contains them all is accepted with [ai_phrase_count] 22, above 21. *)
Lemma C9_counterexample :
  exists response,
    detect_text all_phrases_text = inr response /\
    ai_phrase_count (features response) = 22 /\
    ~ ai_phrase_count (features response) <= 21.
Proof.
  eexists. split; [vm_compute; reflexivity|].
  split; [reflexivity | cbn; lia].
Qed.

(** C9, amended. Both counts are the number of entries of their list that
    occur in the lowered text, each entry counted once however often it
    occurs: [ai_phrase_count] is at most 22, the length of the phrase list,
    and [formal_transition_count] at most 9. *)
Theorem C9_phrase_counts_bounded (text : string) :
  exists features,
    analyze_text_features text = inr features /\
    ai_phrase_count features
      = len (filter (fun phrase => Str.contains phrase (Str.lower text)) ai_phrases) /\
    formal_transition_count features
      = len (filter (fun word => Str.contains word (Str.lower text)) formal_transitions) /\
    0 <= ai_phrase_count features <= 22 /\
    0 <= formal_transition_count features <= 9 /\
    len ai_phrases = 22 /\ len formal_transitions = 9.
Proof.
  unfold analyze_text_features.
  rewrite !truediv_guarded. cbn [bind].
  eexists. split; [reflexivity|].
  cbn [ai_phrase_count formal_transition_count].
  split; [apply count_if_filter|]. split; [apply count_if_filter|].
  split; [apply (count_if_bounds _ ai_phrases)|].
  split; [apply (count_if_bounds _ formal_transitions)|].
  split; reflexivity.
Qed.

(** ** The dampening and the bonus (C4) *)

(** A run of steps splits at any point. *)
Lemma run_steps_app (steps1 steps2 : list step) (features : FeatureSet) (st : state) :
  run_steps (steps1 ++ steps2) features st
  = (st' <- run_steps steps1 features st ;; run_steps steps2 features st').
Proof.
  revert st. induction steps1 as [| s steps1 IH]; intros st; cbn [app run_steps].
  - reflexivity.
  - destruct (s features st) as [e | st']; cbn [bind]; [reflexivity | apply IH].
Qed.

Lemma mem_In (w : string) (l : list string) : In w l -> mem w l = true.
Proof.
  intros H. unfold mem. apply existsb_exists. exists w.
  split; [assumption | apply String.eqb_refl].
Qed.

Lemma trace_of_In (rs : list rule) (rules : list (list rule)) (w : string) :
  Forall2 (fun r c => In r c) rs rules ->
  In w (trace_of rs) -> In w (trace_of (List.concat rules)).
Proof.
  unfold trace_of. induction 1 as [| r c rs rules Hr _ IH]; cbn [List.map List.concat].
  - intros [].
  - rewrite List.map_app, concat_app, !in_app_iff. intros [H | H].
    + left. apply in_concat. exists (snd r). split; [|assumption].
      apply in_map. assumption.
    + right. apply IH. assumption.
Qed.

(** The first eleven steps act by the first eleven lists of rules. *)
Lemma additive_steps_act : Forall2 acts additive_steps additive_rules.
Proof.
  pose proof scorer_steps_act as H.
  unfold additive_steps, additive_rules, scorer_steps, scorer_rules in *.
  cbn [firstn].
  repeat match goal with
         | H : Forall2 _ (_ :: _) (_ :: _) |- _ => inversion H; subst; clear H
         end.
  repeat (constructor; [assumption|]). constructor.
Qed.

(** The scorer, at its last three steps: [acc] is the score accumulated by
    the additive rules, which none of them dampens. *)
Lemma calculate_ai_score_tail (text : string) (features : FeatureSet) :
  exists acc factors,
    run_steps additive_steps features (0.5%f64, []) = inr (acc, factors) /\
    ~ In short_text_entry factors /\
    ~ In perfect_structure_entry factors /\
    calculate_ai_score text features =
      let s1 := if is_short features then apply_adj Damp acc else acc in
      let s2 := if is_perfect features then (s1 + 0.10)%f64 else s1 in
      let score := apply_adj Clamp s2 in
      inr (score, (1 - score)%f64,
           ((factors ++ (if is_short features then [short_text_entry] else []))
              ++ (if is_perfect features then [perfect_structure_entry] else []))%list).
Proof.
  destruct (run_steps_act _ _ additive_steps_act features) as (rs & Hrs & Hrun).
  exists (apply_rules rs 0.5%f64), (trace_of rs).
  split; [unfold float in *; rewrite Hrun; reflexivity|].
  split; [| split].
  - intros H. apply (trace_of_In _ _ _ Hrs), mem_In in H. vm_compute in H. discriminate.
  - intros H. apply (trace_of_In _ _ _ Hrs), mem_In in H. vm_compute in H. discriminate.
  - unfold calculate_ai_score, score_with.
    change scorer_steps
      with (additive_steps ++ [step_short_text; step_perfect_structure; step_clamp])%list.
    rewrite run_steps_app. unfold float in *. rewrite Hrun. cbn [bind app].
    cbn [run_steps]. unfold step_short_text at 1. fold (is_short features).
    destruct (is_short features); cbn [bind];
      unfold step_perfect_structure at 1; fold (is_perfect features);
      destruct (is_perfect features); cbn [bind]; unfold step_clamp, append;
      cbn [bind ret apply_adj]; rewrite ?app_nil_r; reflexivity.
Qed.

(** No feature set is both short and perfect. *)
Lemma short_and_perfect_exclusive (features : FeatureSet) :
  is_short features = true -> is_perfect features = true -> False.
Proof.
  unfold is_short, is_perfect. intros Hs Hp.
  apply Z.ltb_lt in Hs. apply andb_prop in Hp. destruct Hp as [_ Hp].
  apply Z.ltb_lt in Hp. lia.
Qed.

(** The two entries are in the trace exactly when their rules fire. *)
Lemma trace_entries (text : string) (features : FeatureSet) :
  exists ai human factors acc,
    calculate_ai_score text features = inr (ai, human, factors) /\
    (exists factors0, run_steps additive_steps features (0.5%f64, []) = inr (acc, factors0)) /\
    (In short_text_entry factors <-> is_short features = true) /\
    (In perfect_structure_entry factors <-> is_perfect features = true) /\
    (is_perfect features = true -> ai = apply_adj Clamp (acc + 0.10)%f64).
Proof.
  destruct (calculate_ai_score_tail text features)
    as (acc & factors & Hrun & Hs & Hp & E).
  cbv zeta in E.
  eexists _, _, _, acc. split; [exact E|].
  split; [eauto|].
  assert (Hne : short_text_entry <> perfect_structure_entry) by discriminate.
  split; [| split].
  - rewrite !in_app_iff.
    destruct (is_short features), (is_perfect features); cbn [In];
      intuition (try discriminate; try congruence).
  - rewrite !in_app_iff.
    destruct (is_short features), (is_perfect features); cbn [In];
      intuition (try discriminate; try congruence).
  - intros Hperf. rewrite Hperf.
    destruct (is_short features) eqn:Hshort; [|reflexivity].
    exfalso. eapply short_and_perfect_exclusive; eassumption.
Qed.

(** C4, as stated, fails: on no input do the short-text dampening and the
    perfect-structure bonus both fire. *)
Lemma C4_counterexample :
  ~ exists text features ai human factors,
      calculate_ai_score text features = inr (ai, human, factors) /\
      In short_text_entry factors /\
      In perfect_structure_entry factors.
Proof.
  intros (text & features & ai & human & factors & E & Hs & Hp).
  destruct (trace_entries text features)
    as (ai' & human' & factors' & acc & E' & _ & Hshort & Hperfect & _).
  rewrite E in E'. injection E' as _ _ <-.
  apply (short_and_perfect_exclusive features); [apply Hshort | apply Hperfect]; assumption.
Qed.

(** C4, amended. The perfect-structure step comes after the short-text
    step, but the two never fire on the same input: the bonus fires exactly
    when there is no exclamation mark, slang or repeated character, the
    lexical diversity exceeds 0.75 and the text has more than 40 words, the
    dampening exactly when it has fewer than 30; when the bonus fires it is
    added to the score accumulated by the additive rules, undampened. *)
Theorem C4_bonus_after_dampening_never_both (text : string) (features : FeatureSet) :
  (exists before,
     scorer_steps
       = (before ++ [step_short_text; step_perfect_structure; step_clamp])%list) /\
  exists ai human factors acc,
    calculate_ai_score text features = inr (ai, human, factors) /\
    (exists factors0, run_steps additive_steps features (0.5%f64, []) = inr (acc, factors0)) /\
    (In short_text_entry factors <-> word_count features < 30) /\
    (In perfect_structure_entry factors <->
       exclamation_count features = 0 /\ slang_count features = 0 /\
       repeated_chars features = 0 /\
       (lexical_diversity features >? 0.75)%f64 = true /\
       40 < word_count features) /\
    ~ (In short_text_entry factors /\ In perfect_structure_entry factors) /\
    (In perfect_structure_entry factors ->
       ai = (F64.max 0.05 (F64.min 0.95 (acc + 0.10)))%f64).
Proof.
  split; [exists additive_steps; reflexivity|].
  destruct (trace_entries text features)
    as (ai & human & factors & acc & E & Hacc & Hshort & Hperfect & Hbonus).
  exists ai, human, factors, acc.
  split; [exact E|]. split; [exact Hacc|].
  split; [| split; [| split]].
  - rewrite Hshort. unfold is_short. apply Z.ltb_lt.
  - rewrite Hperfect. unfold is_perfect.
    rewrite !andb_true_iff, !Z.eqb_eq, Z.ltb_lt. tauto.
  - intros [Hs Hp]. apply (short_and_perfect_exclusive features);
      [apply Hshort | apply Hperfect]; assumption.
  - intros Hp. apply Hbonus, Hperfect, Hp.
Qed.

(** ** The variance of the sentence lengths (C6) *)


(** ** Monotonicity in the AI-phrase count (C3) *)

Lemma fast_both_fold (rs : list rule) (x y : PrimFloat.float) :
  fold_left (fun p b => fast_both b p) (List.map fast_rule rs) (x, y)
  = (fast_apply_rules rs x, fast_apply_rules rs y).
Proof.
  unfold fast_apply_rules. revert x y.
  induction rs as [| r rs IH]; intros x y; cbn [List.map fold_left]; [reflexivity|].
  unfold fast_both at 2. cbn [fst snd]. apply IH.
Qed.

Lemma fast_increased_spec (x y : PrimFloat.float) :
  fast_increased (x, y) = increased (FloatOps.Prim2SF x, FloatOps.Prim2SF y).
Proof.
  unfold fast_increased, increased. cbn [fst snd].
  rewrite p_leb_spec, p_ltb_spec, !p_eqb_spec. reflexivity.
Qed.

(** On every combination of the later rules, the score that starts with
    one phrase has [increased] over the one that starts with none. *)
Lemma one_phrase_checked :
  check fast_both fast_increased (tl (fast_rules scorer_rules))
    (p_half, PrimFloat.add p_half p_0_15) = true.
Proof. vm_cast_no_check (eq_refl true). Qed.

Lemma later_steps_act : Forall2 acts (tl scorer_steps) (tl scorer_rules).
Proof.
  pose proof scorer_steps_act as H.
  unfold scorer_steps, scorer_rules in *. cbn [tl].
  inversion H; subst. assumption.
Qed.

(** The score with no AI phrase and with one, every other feature fixed. *)
Lemma one_phrase_scores (text : string) (features : FeatureSet) :
  exists ai0 ai1 factors0 factors1,
    calculate_ai_score text (with_ai_phrase_count features 0)
      = inr (ai0, (1 - ai0)%f64, factors0) /\
    calculate_ai_score text (with_ai_phrase_count features 1)
      = inr (ai1, (1 - ai1)%f64, factors1) /\
    increased (ai0, ai1) = true.
Proof.
  destruct (run_steps_act _ _ later_steps_act (with_ai_phrase_count features 0))
    as (rs & Hrs & Hrun).
  exists (apply_rules rs 0.5%f64), (apply_rules rs (0.5 + 0.15)%f64).
  eexists _, _. split; [| split].
  - unfold calculate_ai_score, score_with.
    change scorer_steps with (step_ai_phrases :: tl scorer_steps).
    cbn [run_steps]. unfold step_ai_phrases at 1. cbn [ai_phrase_count with_ai_phrase_count].
    cbn [Z.ltb Z.compare bind ret]. unfold float in *. rewrite Hrun. reflexivity.
  - unfold calculate_ai_score, score_with.
    change scorer_steps with (step_ai_phrases :: tl scorer_steps).
    cbn [run_steps]. unfold step_ai_phrases at 1. cbn [ai_phrase_count with_ai_phrase_count].
    cbn [Z.ltb Z.compare bind ret].
    change (run_steps (tl scorer_steps) (with_ai_phrase_count features 1))
      with (run_steps (tl scorer_steps) (with_ai_phrase_count features 0)).
    change (F64.min 0.25 (F64.of_int 1 * 0.15))%f64 with 0.15%f64.
    unfold float in *. rewrite Hrun. reflexivity.
  - pose proof (check_sound fast_both fast_increased _ _ _ one_phrase_checked
                  (fast_rules_In (tl scorer_rules) _ Hrs)) as H.
    rewrite fast_both_fold, fast_increased_spec in H.
    assert (Hex : Forall (fun r => adj_exact (fst r) = true) rs).
    { apply (rules_exact_In (tl scorer_rules)); [| exact Hrs].
      vm_compute. reflexivity. }
    rewrite !fast_apply_rules_spec in H by exact Hex. exact H.
Qed.

(** C3, as stated, fails: the features of [formal_text] have no AI phrase and
    score 0.95; with one AI phrase, every other feature fixed, the score is
    0.95 again, not more. *)
Lemma C3_counterexample :
  exists features,
    analyze_text_features formal_text = inr features /\
    ai_phrase_count features = 0 /\
    exists human0 factors0 human1 factors1,
      calculate_ai_score formal_text (with_ai_phrase_count features 0)
        = inr (0.95%f64, human0, factors0) /\
      calculate_ai_score formal_text (with_ai_phrase_count features 1)
        = inr (0.95%f64, human1, factors1) /\
      (0.95 <? 0.95)%f64 = false.
Proof.
  eexists. split; [vm_compute; reflexivity|].
  split; [reflexivity|].
  eexists _, _, _, _.
  split; [vm_compute; reflexivity|].
  split; [vm_compute; reflexivity|].
  reflexivity.
Qed.

(** C3, amended. Changing [ai_phrase_count] from 0 to 1 with every other
    feature fixed never lowers [ai_probability], and raises it strictly
    unless the score sits at the same bound of the clamp, 0.95 or 0.05,
    before and after. *)
Theorem C3_one_phrase_monotone (text : string) (features : FeatureSet) :
  exists ai0 human0 factors0 ai1 human1 factors1,
    calculate_ai_score text (with_ai_phrase_count features 0)
      = inr (ai0, human0, factors0) /\
    calculate_ai_score text (with_ai_phrase_count features 1)
      = inr (ai1, human1, factors1) /\
    (ai0 <=? ai1)%f64 = true /\
    ((ai0 <? ai1)%f64 = true \/
     (ai0 = 0.95%f64 /\ ai1 = 0.95%f64) \/
     (ai0 = 0.05%f64 /\ ai1 = 0.05%f64)).
Proof.
  destruct (one_phrase_scores text features)
    as (ai0 & ai1 & factors0 & factors1 & E0 & E1 & H).
  exists ai0, (1 - ai0)%f64, factors0, ai1, (1 - ai1)%f64, factors1.
  split; [exact E0|]. split; [exact E1|].
  unfold increased in H. cbn [fst snd] in H.
  apply andb_prop in H. destruct H as [Hle H].
  split; [exact Hle|].
  apply orb_prop in H. destruct H as [H | H].
  - apply orb_prop in H. destruct H as [H | H]; [left; exact H|].
    apply andb_prop in H. destruct H as [H0 H1].
    right. left. split; apply eqb_finite_eq; assumption.
  - apply andb_prop in H. destruct H as [H0 H1].
    right. right. split; apply eqb_finite_eq; assumption.
Qed.

(** ** Reordering the additive steps (C2) *)

(** *** Selections and the table *)

Lemma p_mem_In (x : PrimFloat.float) (l : list PrimFloat.float) :
  p_mem x l = true -> In x l.
Proof.
  unfold p_mem. rewrite existsb_exists. intros (y & Hy & E).
  apply FloatAxioms.Leibniz.eqb_spec in E. subst. assumption.
Qed.

Lemma all_vectors_In {B : Type} (rules : list (list B)) (v : list nat) :
  valid v rules -> In v (all_vectors rules).
Proof.
  induction 1 as [| k R v rules Hk _ IH]; cbn [all_vectors].
  - left. reflexivity.
  - apply in_flat_map. exists k. split.
    + apply in_seq. lia.
    + apply in_map. assumption.
Qed.

Lemma valid_length {B : Type} (v : list nat) (rules : list (list B)) :
  valid v rules -> List.length v = List.length rules.
Proof. induction 1; cbn; congruence. Qed.

Lemma valid_fast (v : list nat) (rules : list (list rule)) :
  valid v rules -> valid v (fast_rules rules).
Proof.
  unfold fast_rules. induction 1 as [| k R v rules Hk _ IH]; cbn [List.map]; constructor.
  - rewrite length_map. assumption.
  - assumption.
Qed.

Lemma closed_spec (rules : list (list fadj)) (T : table) :
  closed rules T = true ->
  In p_half (lookup T (repeat O (List.length rules))) /\
  forall v i k x,
    valid v rules -> (i < List.length rules)%nat -> nth i v O = O ->
    (k < List.length (nth i rules []))%nat ->
    In x (lookup T v) ->
    In (fast_apply (fast_rule_at rules i k) x) (lookup T (set_nth i k v)).
Proof.
  unfold closed. intros H. apply andb_prop in H. destruct H as [H0 H].
  split; [apply p_mem_In; assumption|].
  intros v i k x Hv Hi Hzero Hk Hx.
  rewrite forallb_forall in H. specialize (H v (all_vectors_In _ _ Hv)).
  rewrite forallb_forall in H. specialize (H i).
  rewrite in_seq in H. specialize (H ltac:(lia)).
  rewrite Hzero in H. cbn [Nat.eqb] in H.
  rewrite forallb_forall in H. specialize (H k).
  rewrite in_seq in H. specialize (H ltac:(lia)).
  rewrite forallb_forall in H. apply p_mem_In. apply H. assumption.
Qed.

Lemma set_nth_length (i k : nat) (v : list nat) :
  List.length (set_nth i k v) = List.length v.
Proof.
  revert i. induction v as [| x v IH]; intros [| i]; cbn; auto.
Qed.

Lemma set_nth_same (i k : nat) (v : list nat) :
  (i < List.length v)%nat -> nth i (set_nth i k v) O = k.
Proof.
  revert i. induction v as [| x v IH]; intros [| i] H; cbn in *; try lia.
  apply IH. lia.
Qed.

Lemma set_nth_other (i j k : nat) (v : list nat) :
  i <> j -> nth j (set_nth i k v) O = nth j v O.
Proof.
  revert i j. induction v as [| x v IH]; intros [| i] [| j] H; cbn; try reflexivity.
  - contradiction.
  - apply IH. congruence.
Qed.

Lemma set_nth_valid {B : Type} (rules : list (list B)) (i k : nat) (v : list nat) :
  valid v rules -> (k < List.length (nth i rules []))%nat -> valid (set_nth i k v) rules.
Proof.
  intros Hv. revert i. induction Hv as [| x R v rules Hx Hv IH]; intros [| i] Hk; cbn in *.
  - constructor.
  - constructor.
  - constructor; assumption.
  - constructor; [assumption | apply IH; assumption].
Qed.

Lemma valid_nth {B : Type} (rules : list (list B)) (v : list nat) (i : nat) :
  valid v rules -> (i < List.length rules)%nat ->
  (nth i v O < List.length (nth i rules []))%nat.
Proof.
  intros Hv. revert i.
  induction Hv as [| x R v rules Hx Hv IH]; intros [| i] Hi; cbn in *; try lia.
  apply IH. lia.
Qed.

Lemma valid_zeros {B : Type} (rules : list (list B)) :
  Forall (fun R : list B => R <> []) rules -> valid (repeat O (List.length rules)) rules.
Proof.
  induction 1 as [| R rules HR _ IH]; cbn; constructor; [| assumption].
  destruct R; [contradiction | cbn; lia].
Qed.

Lemma fill_length (c p v : list nat) : List.length (fill c p v) = List.length v.
Proof.
  unfold fill. revert v. induction p as [| i p IH]; intros v; cbn; [reflexivity|].
  rewrite IH. apply set_nth_length.
Qed.

Lemma fill_nth (c p v : list nat) (j : nat) :
  (j < List.length v)%nat ->
  nth j (fill c p v) O = if existsb (Nat.eqb j) p then nth j c O else nth j v O.
Proof.
  unfold fill. revert v.
  induction p as [| i p IH]; intros v Hj; cbn [fold_left existsb]; [reflexivity|].
  rewrite IH by (rewrite set_nth_length; assumption).
  destruct (existsb (Nat.eqb j) p) eqn:E; [rewrite orb_true_r; reflexivity|].
  rewrite orb_false_r. destruct (Nat.eqb_spec j i) as [-> | NE].
  - apply set_nth_same. assumption.
  - apply set_nth_other. congruence.
Qed.

Lemma fill_all (c p : list nat) (n : nat) :
  List.length c = n -> (forall j, (j < n)%nat -> In j p) ->
  fill c p (repeat O n) = c.
Proof.
  intros Hc Hall. apply nth_ext with (d := O) (d' := O).
  - rewrite fill_length, repeat_length. congruence.
  - intros j Hj. rewrite fill_length, repeat_length in Hj.
    rewrite fill_nth by (rewrite repeat_length; assumption).
    assert (E : existsb (Nat.eqb j) p = true).
    { apply existsb_exists. exists j. split; [auto | apply Nat.eqb_refl]. }
    rewrite E. reflexivity.
Qed.

Section Reach.
Variable rules : list (list fadj).
Variable T : table.
Hypothesis Hclosed : closed rules T = true.
Variable c : list nat.
Hypothesis Hc : valid c rules.

Lemma reach (p : list nat) :
  forall v x,
    NoDup p -> (forall i, In i p -> (i < List.length rules)%nat) ->
    valid v rules -> (forall i, In i p -> nth i v O = O) ->
    In x (lookup T v) ->
    In (fast_in_order rules c p x) (lookup T (fill c p v)).
Proof.
  destruct (closed_spec _ _ Hclosed) as [_ Hstep].
  induction p as [| j p IH]; intros v x Hnd Hlt Hv Hzero Hx;
    cbn [fast_in_order fill fold_left].
  - assumption.
  - inversion Hnd as [| ? ? Hnotin Hnd']; subst.
    apply IH.
    + assumption.
    + intros i Hi. apply Hlt. right. assumption.
    + apply set_nth_valid; [assumption|]. apply valid_nth; [assumption|].
      apply Hlt. left. reflexivity.
    + intros i Hi. rewrite set_nth_other; [apply Hzero; right; assumption|].
      intros ->. contradiction.
    + apply Hstep; try assumption.
      * apply Hlt. left. reflexivity.
      * apply Hzero. left. reflexivity.
      * apply valid_nth; [assumption|]. apply Hlt. left. reflexivity.
Qed.

Lemma reach_permutation (order : list nat) :
  Forall (fun R : list fadj => R <> []) rules ->
  Permutation order (seq 0 (List.length rules)) ->
  In (fast_in_order rules c order p_half) (lookup T c).
Proof.
  intros Hne Hperm.
  destruct (closed_spec _ _ Hclosed) as [Hstart _].
  assert (Hin : forall i, In i order <-> (i < List.length rules)%nat).
  { intros i. split; intros H.
    - apply (Permutation_in _ Hperm) in H. apply in_seq in H. lia.
    - apply (Permutation_in _ (Permutation_sym Hperm)). apply in_seq. lia. }
  pose proof (reach order (repeat O (List.length rules)) p_half) as H.
  rewrite (fill_all c order (List.length rules)) in H.
  - apply H.
    + apply (Permutation_NoDup (Permutation_sym Hperm)). apply seq_NoDup.
    + intros i Hi. apply Hin. assumption.
    + apply valid_zeros. assumption.
    + intros i _. apply nth_repeat.
    + assumption.
  - apply valid_length. assumption.
  - intros j Hj. apply Hin. assumption.
Qed.
End Reach.

(** *** The search tree keeps what is inserted *)

Lemma insert_same (p : score_pair) (t : pair_tree) : In p (elements (insert p t)).
Proof.
  induction t as [| l IHl q r IHr]; cbn [insert elements].
  - left. reflexivity.
  - destruct (pair_eqb p q) eqn:E.
    + unfold pair_eqb in E. apply andb_prop in E. destruct E as [E1 E2].
      apply FloatAxioms.Leibniz.eqb_spec in E1, E2.
      destruct p as [p1 p2], q as [q1 q2]. cbn [fst snd] in *. subst.
      cbn [elements]. apply in_or_app. right. left. reflexivity.
    + destruct (pair_ltb p q); cbn [elements]; apply in_or_app.
      * left. assumption.
      * right. right. assumption.
Qed.

Lemma insert_other (p q : score_pair) (t : pair_tree) :
  In q (elements t) -> In q (elements (insert p t)).
Proof.
  induction t as [| l IHl q' r IHr]; cbn [insert elements].
  - intros [].
  - intros H. destruct (pair_eqb p q'); [exact H|].
    apply in_app_or in H.
    destruct (pair_ltb p q'); cbn [elements]; apply in_or_app;
      destruct H as [H | [H | H]].
    + left. apply IHl. exact H.
    + right. left. exact H.
    + right. right. exact H.
    + left. exact H.
    + right. left. exact H.
    + right. right. apply IHr. exact H.
Qed.

Lemma insert_all (l : list score_pair) :
  forall t q, In q l \/ In q (elements t) ->
              In q (elements (fold_left (fun t p => insert p t) l t)).
Proof.
  induction l as [| p l IH]; intros t q H; cbn [fold_left].
  - destruct H as [[] | H]. exact H.
  - apply IH. destruct H as [[-> | H] | H].
    + right. apply insert_same.
    + left. exact H.
    + right. apply insert_other. exact H.
Qed.

(** *** The model and the primitive runs agree *)

Lemma fast_rule_at_spec (rules : list (list rule)) (i k : nat) :
  fast_rule_at (fast_rules rules) i k = fast_rule (rule_at rules i k).
Proof.
  unfold fast_rule_at, rule_at, fast_rules.
  change (@nil fadj) with (List.map fast_rule []).
  rewrite map_nth.
  change FKeep with (fast_rule (Keep, [])).
  apply map_nth.
Qed.

Lemma rule_at_exact (rules : list (list rule)) (i k : nat) :
  rules_exact rules = true -> adj_exact (fst (rule_at rules i k)) = true.
Proof.
  unfold rules_exact, rule_at. intros H.
  destruct (nth_in_or_default k (nth i rules []) (Keep, [])) as [Hin | ->];
    [| reflexivity].
  destruct (nth_in_or_default i rules []) as [Hin' | E].
  - rewrite forallb_forall in H. specialize (H _ Hin').
    rewrite forallb_forall in H. apply H. assumption.
  - rewrite E in Hin. destruct Hin.
Qed.

Lemma fast_in_order_spec (rules : list (list rule)) (v order : list nat)
    (x : PrimFloat.float) :
  rules_exact rules = true ->
  FloatOps.Prim2SF (fast_in_order (fast_rules rules) v order x)
  = in_order rules v order (FloatOps.Prim2SF x).
Proof.
  intros Hex. unfold fast_in_order, in_order. revert x.
  induction order as [| i order IH]; intros x; cbn [fold_left]; [reflexivity|].
  rewrite IH, fast_rule_at_spec. unfold fast_rule.
  rewrite fast_apply_spec by (apply rule_at_exact; assumption). reflexivity.
Qed.

(** The rule each step chooses for given features, by its index. *)
Lemma choices_of (steps : list step) (rules : list (list rule)) (features : FeatureSet) :
  Forall2 acts steps rules ->
  exists c,
    valid c rules /\
    forall i score factors,
      (i < List.length steps)%nat ->
      nth i steps step_clamp features (score, factors)
      = inr (apply_adj (fst (rule_at rules i (nth i c O))) score,
             (factors ++ snd (rule_at rules i (nth i c O)))%list).
Proof.
  induction 1 as [| s R steps rules Hs _ IH].
  - exists []. split; [constructor|]. intros i score factors Hi. cbn in Hi. lia.
  - destruct IH as (c & Hc & Hrun).
    destruct (Hs features) as (r & Hr & Hstep).
    destruct (In_nth _ _ (Keep, []) Hr) as (k & Hk & Ek).
    exists (k :: c). split; [constructor; assumption|].
    intros [| i] score factors Hi; cbn [nth rule_at].
    + unfold rule_at. cbn [nth]. subst r. apply Hstep.
    + apply Hrun. cbn in Hi. lia.
Qed.

Lemma run_in_order (steps : list step) (rules : list (list rule))
    (features : FeatureSet) (c : list nat) :
  (forall i score factors,
     (i < List.length steps)%nat ->
     nth i steps step_clamp features (score, factors)
     = inr (apply_adj (fst (rule_at rules i (nth i c O))) score,
            (factors ++ snd (rule_at rules i (nth i c O)))%list)) ->
  forall order score factors,
    (forall i, In i order -> (i < List.length steps)%nat) ->
    run_steps (List.map (fun i => nth i steps step_clamp) order) features (score, factors)
    = inr (in_order rules c order score,
           (factors ++ entries_in_order rules c order)%list).
Proof.
  intros Hrun order. induction order as [| j order IH]; intros score factors Hlt.
  - cbn. rewrite app_nil_r. reflexivity.
  - cbn [List.map run_steps]. rewrite Hrun by (apply Hlt; left; reflexivity).
    cbn [bind]. rewrite IH by (intros i Hi; apply Hlt; right; assumption).
    unfold entries_in_order. cbn [in_order fold_left flat_map].
    rewrite app_assoc. reflexivity.
Qed.

(** *** The distance check *)

Lemma parts_to_Q (x : float) (m e : Z) :
  parts x = Some (m, e) -> (to_Q x == inject_Z m * Qpower 2 e)%Q.
Proof.
  destruct x as [s | s | | s p e']; cbn [parts to_Q]; try discriminate.
  - intros [= <- <-]. cbn. reflexivity.
  - intros [= <- <-]. reflexivity.
Qed.

Lemma rescale (m e e0 : Z) :
  (e0 <= e)%Z ->
  (inject_Z m * Qpower 2 e == inject_Z (m * 2 ^ (e - e0)) * Qpower 2 e0)%Q.
Proof.
  intros H. replace e with ((e - e0) + e0)%Z at 1 by lia.
  rewrite Qpower_plus by discriminate.
  rewrite inject_Z_mult, Zpower_Qpower by lia.
  change (inject_Z 2) with 2%Q. ring.
Qed.

Lemma within_spec (a b : Z * Z) :
  within a b = true ->
  (Qabs (inject_Z (fst b) * Qpower 2 (snd b) - inject_Z (fst a) * Qpower 2 (snd a))
   <= Qpower 2 (-50))%Q.
Proof.
  destruct a as [m1 e1], b as [m2 e2]. unfold within. cbn [fst snd].
  set (e := Z.min (Z.min e1 e2) (-50)). intros H. apply Z.leb_le in H.
  rewrite (rescale m1 e1 e), (rescale m2 e2 e) by lia.
  set (a := (m1 * 2 ^ (e1 - e))%Z) in *. set (b := (m2 * 2 ^ (e2 - e))%Z) in *.
  assert (E : (inject_Z b * Qpower 2 e - inject_Z a * Qpower 2 e
               == inject_Z (b - a) * Qpower 2 e)%Q).
  { unfold Z.sub. rewrite inject_Z_plus, inject_Z_opp. ring. }
  rewrite E, Qabs_Qmult.
  assert (Hpos : (0 < Qpower 2 e)%Q) by (apply Qpower_0_lt; reflexivity).
  rewrite (Qabs_pos (Qpower 2 e)) by (apply Qlt_le_weak; assumption).
  replace (-50)%Z with ((-50 - e) + e)%Z by lia.
  rewrite Qpower_plus by discriminate.
  apply Qmult_le_compat_r; [| apply Qlt_le_weak; assumption].
  change 2%Q with (inject_Z 2). rewrite <- Zpower_Qpower by lia.
  change (Qabs (inject_Z (b - a))) with (inject_Z (Z.abs (b - a))).
  rewrite <- Zle_Qle. assumption.
Qed.

Lemma fast_close_spec (x y : PrimFloat.float) :
  fast_close (x, y) = true ->
  (Qabs (to_Q (FloatOps.Prim2SF y) - to_Q (FloatOps.Prim2SF x))
   <= 1 # 1125899906842624)%Q.
Proof.
  unfold fast_close. cbn [fst snd]. intros H.
  apply orb_prop in H. destruct H as [H | H].
  - apply FloatAxioms.Leibniz.eqb_spec in H. subst y.
    setoid_replace (to_Q (FloatOps.Prim2SF x) - to_Q (FloatOps.Prim2SF x))%Q
      with 0%Q by ring.
    discriminate.
  - destruct (parts (FloatOps.Prim2SF x)) as [[m1 e1] |] eqn:Ex; [| discriminate].
    destruct (parts (FloatOps.Prim2SF y)) as [[m2 e2] |] eqn:Ey; [| discriminate].
    rewrite (parts_to_Q _ _ _ Ex), (parts_to_Q _ _ _ Ey).
    apply within_spec in H. cbn [fst snd] in H. exact H.
Qed.

Lemma good_spec (rules tail : list (list rule)) (T : table) :
  good (fast_rules rules) (fast_rules tail) T = true ->
  forall v x rs,
    valid v (fast_rules rules) -> In x (lookup T v) ->
    Forall2 (fun r R => In r R) rs tail ->
    fast_close
      (fast_apply_rules rs
         (fast_in_order (fast_rules rules) v
            (seq 0 (List.length (fast_rules rules))) p_half),
       fast_apply_rules rs x) = true.
Proof.
  unfold good. intros H v x rs Hv Hx Hrs.
  rewrite forallb_forall in H.
  rewrite <- fast_both_fold.
  apply (check_sound fast_both fast_close (fast_rules tail));
    [| apply fast_rules_In; exact Hrs].
  apply H. unfold distinct_pairs. apply insert_all. left.
  unfold all_pairs. apply in_flat_map. exists v.
  split; [apply all_vectors_In; exact Hv|].
  cbv zeta. apply in_map. exact Hx.
Qed.

(** *** The reordered scorer *)

Lemma tail_steps_act : Forall2 acts tail_steps tail_rules.
Proof.
  pose proof scorer_steps_act as H.
  unfold tail_steps, tail_rules, scorer_steps, scorer_rules in *.
  cbn [skipn].
  repeat match goal with
         | H : Forall2 _ (_ :: _) (_ :: _) |- _ =>
             let H1 := fresh in let H2 := fresh in
             apply Forall2_cons_iff in H; destruct H as [H1 H2]
         end.
  repeat (constructor; [assumption|]). constructor.
Qed.

Lemma additive_rules_nonempty :
  Forall (fun R : list fadj => R <> []) (fast_rules additive_rules).
Proof.
  unfold additive_rules, scorer_rules. cbn [firstn fast_rules List.map].
  repeat (constructor; [discriminate|]). constructor.
Qed.

Lemma additive_rules_exact : rules_exact additive_rules = true.
Proof. vm_compute. reflexivity. Qed.

Lemma tail_rules_exact : rules_exact tail_rules = true.
Proof. vm_compute. reflexivity. Qed.

Section Reordered.
Variable T : table.
Hypothesis Hclosed : closed (fast_rules additive_rules) T = true.
Hypothesis Hgood : good (fast_rules additive_rules) (fast_rules tail_rules) T = true.

Lemma reordered_scores (text : string) (features : FeatureSet) :
  exists c rs,
    forall order,
      Permutation order (seq 0 11) ->
      score_with (reordered order) features
      = inr (apply_rules rs (in_order additive_rules c order 0.5%f64),
             (1 - apply_rules rs (in_order additive_rules c order 0.5%f64))%f64,
             (entries_in_order additive_rules c order ++ trace_of rs)%list) /\
      (Qabs (to_Q (apply_rules rs (in_order additive_rules c order 0.5%f64))
             - to_Q (apply_rules rs (in_order additive_rules c (seq 0 11) 0.5%f64)))
       <= 1 # 1125899906842624)%Q.
Proof.
  destruct (choices_of _ _ features additive_steps_act) as (c & Hc & Hstep).
  destruct (run_steps_act _ _ tail_steps_act features) as (rs & Hrs & Htail).
  exists c, rs. intros order Hperm.
  assert (Hlt : forall i, In i order -> (i < List.length additive_steps)%nat).
  { intros i Hi. apply (Permutation_in _ Hperm) in Hi. apply in_seq in Hi.
    change (List.length additive_steps) with 11%nat. lia. }
  split.
  - unfold score_with, reordered. rewrite run_steps_app.
    unfold float in *.
    rewrite (run_in_order _ _ _ _ Hstep order _ _ Hlt). cbn [bind app].
    rewrite Htail. reflexivity.
  - assert (Hex : Forall (fun r => adj_exact (fst r) = true) rs)
      by (apply (rules_exact_In tail_rules); [exact tail_rules_exact | exact Hrs]).
    pose proof (reach_permutation _ _ Hclosed c (valid_fast _ _ Hc) order
                  additive_rules_nonempty Hperm) as Hreach.
    pose proof (good_spec _ _ _ Hgood c _ rs (valid_fast _ _ Hc) Hreach Hrs) as Hclose.
    apply fast_close_spec in Hclose.
    rewrite !fast_apply_rules_spec in Hclose by exact Hex.
    rewrite !fast_in_order_spec in Hclose by exact additive_rules_exact.
    exact Hclose.
Qed.
End Reordered.

Lemma reachable_checked :
  (let T := reachable (fast_rules additive_rules) in
   closed (fast_rules additive_rules) T
   && good (fast_rules additive_rules) (fast_rules tail_rules) T) = true.
Proof. vm_cast_no_check (eq_refl true). Qed.

(** *** The effect of the order *)

(** Exchanging two additive steps can change the last place of the score:
    on [emphatic_text] the score is 0.32 in the scorer's order and
    0.31999999999999995 with the last two additive steps exchanged. *)
Lemma additive_order_changes_last_place :
  exists features human factors human' factors',
    analyze_text_features emphatic_text = inr features /\
    calculate_ai_score emphatic_text features
      = inr (S754_finite false 5764607523034235 (-54), human, factors) /\
    score_with (reordered swapped_order) features
      = inr (S754_finite false 5764607523034234 (-54), human', factors').
Proof.
  eexists _, _, _, _, _.
  split; [vm_compute; reflexivity|].
  split; vm_compute; reflexivity.
Qed.




(** ** The label, the confidence and the human probability *)

Lemma fast_label_ok_spec (x : PrimFloat.float) :
  fast_label_ok x = true -> label_ok (FloatOps.Prim2SF x).
Proof.
  unfold fast_label_ok, label_ok. cbv zeta. intros H.
  apply andb_prop in H. destruct H as [H Hc].
  apply andb_prop in H. destruct H as [H Hl].
  apply andb_prop in H. destruct H as [Hlo Hhi].
  rewrite p_leb_spec, p_sub_spec in Hlo, Hhi.
  apply Bool.eqb_prop in Hl. rewrite !p_ltb_spec, p_sub_spec in Hl.
  apply FloatAxioms.Leibniz.eqb_spec in Hc.
  apply (f_equal FloatOps.Prim2SF) in Hc.
  rewrite p_max_spec, p_sub_spec, p_ltb_spec in Hc.
  change (FloatOps.Prim2SF p_one) with 1%f64 in *.
  change (FloatOps.Prim2SF p_half) with 0.5%f64 in *.
  change (FloatOps.Prim2SF p_0_05) with 0.05%f64 in *.
  change (FloatOps.Prim2SF p_0_95) with 0.95%f64 in *.
  repeat split; try assumption.
  rewrite Hc. destruct (0.5 <? FloatOps.Prim2SF x)%f64; [reflexivity|].
  rewrite p_sub_spec. reflexivity.
Qed.

(** Every final score the scorer can produce is [label_ok]. *)
Lemma final_labels_checked :
  check fast_apply fast_label_ok (fast_rules scorer_rules) p_half = true.
Proof. vm_cast_no_check (eq_refl true). Qed.

Lemma calculate_ai_score_label (text : string) (features : FeatureSet) :
  exists score factors,
    calculate_ai_score text features = inr (score, (1 - score)%f64, factors) /\
    label_ok score.
Proof.
  destruct (run_steps_act _ _ scorer_steps_act features) as (rs & Hrs & Hrun).
  exists (apply_rules rs 0.5%f64), (trace_of rs).
  split.
  - unfold calculate_ai_score, score_with. unfold float in *.
    rewrite Hrun. reflexivity.
  - pose proof (check_sound fast_apply fast_label_ok _ _ _ final_labels_checked
                  (fast_rules_In _ _ Hrs)) as H.
    fold (fast_apply_rules rs p_half) in H.
    apply fast_label_ok_spec in H.
    rewrite fast_apply_rules_spec in H
      by (apply (rules_exact_In scorer_rules); [exact scorer_rules_exact | exact Hrs]).
    exact H.
Qed.

(** X1. The human probability, too, lies in [0.05, 0.95], for every feature
    set. *)
Theorem human_probability_clamped (text : string) (features : FeatureSet) :
  exists ai human factors,
    calculate_ai_score text features = inr (ai, human, factors) /\
    human = (1 - ai)%f64 /\
    (0.05 <=? human)%f64 = true /\
    (human <=? 0.95)%f64 = true.
Proof.
  destruct (calculate_ai_score_label text features)
    as (score & factors & E & Hlo & Hhi & _).
  exists score, (1 - score)%f64, factors. auto.
Qed.

(** X2. In every response the label tells which probability is the larger,
    and the confidence is the probability of the label: [ai_probability]
    when the text is labelled AI-generated, [human_probability]
    otherwise. *)
Theorem confidence_is_probability_of_label
    (input_text : string) (response : DetectionResponse) :
  detect_text input_text = inr response ->
  is_ai_generated response
    = (ai_probability response >? human_probability response)%f64 /\
  confidence response
    = (if is_ai_generated response then ai_probability response
       else human_probability response).
Proof.
  intros E.
  destruct (rejected_dec (Str.strip input_text)) as [Hrej | Hok].
  { destruct (detect_text_rejected _ Hrej) as (detail & E' & _). congruence. }
  destruct (detect_text_accepted _ Hok)
    as (fs & score & factors & _ & Hs & _ & _ & _ & E').
  rewrite E' in E. injection E as <-.
  cbn [is_ai_generated confidence ai_probability human_probability].
  destruct (calculate_ai_score_label (Str.strip input_text) fs)
    as (score' & factors' & Hs' & _ & _ & Hl & Hc).
  rewrite Hs in Hs'. injection Hs' as -> _. auto.
Qed.

Lemma confidence_is_probability_of_label_witness :
  exists response,
    detect_text formal_text = inr response /\
    is_ai_generated response
      = (ai_probability response >? human_probability response)%f64 /\
    confidence response
      = (if is_ai_generated response then ai_probability response
         else human_probability response).
Proof.
  eexists. split; [vm_compute; reflexivity|].
  apply (confidence_is_probability_of_label formal_text). vm_compute. reflexivity.
Defined.

(** ** Trimming *)

Lemma append_assoc (s t u : string) : (s ++ t) ++ u = s ++ (t ++ u).
Proof.
  induction s as [| c s IH]; cbn [String.append]; [reflexivity | rewrite IH; reflexivity].
Qed.

Lemma rev_onto_app (s acc : string) : Str.rev_onto s acc = Str.rev s ++ acc.
Proof.
  unfold Str.rev. revert acc.
  induction s as [| c s IH]; intros acc; cbn [Str.rev_onto]; [reflexivity|].
  rewrite IH, (IH (String c "")). rewrite append_assoc. reflexivity.
Qed.

Lemma rev_cons (c : ascii) (s : string) : Str.rev (String c s) = Str.snoc (Str.rev s) c.
Proof.
  unfold Str.rev at 1. cbn [Str.rev_onto]. apply rev_onto_app.
Qed.

Lemma append_nil_r (s : string) : s ++ "" = s.
Proof.
  induction s as [| c s IH]; cbn; [reflexivity | rewrite IH; reflexivity].
Qed.

Lemma rev_snoc (s : string) (c : ascii) : Str.rev (Str.snoc s c) = String c (Str.rev s).
Proof.
  unfold Str.snoc.
  induction s as [| d s IH]; [reflexivity|].
  cbn [String.append]. rewrite !rev_cons, IH. reflexivity.
Qed.

Lemma rev_involutive (s : string) : Str.rev (Str.rev s) = s.
Proof.
  induction s as [| c s IH]; [reflexivity|].
  rewrite rev_cons, rev_snoc, IH. reflexivity.
Qed.

Lemma lstrip_idempotent (s : string) : Str.lstrip (Str.lstrip s) = Str.lstrip s.
Proof.
  induction s as [| c s IH]; [reflexivity|].
  cbn [Str.lstrip]. destruct (Str.isspace c) eqn:E; [assumption|].
  cbn [Str.lstrip]. rewrite E. reflexivity.
Qed.

Lemma lstrip_snoc (s : string) (c : ascii) :
  Str.isspace c = false -> Str.lstrip (Str.snoc s c) = Str.snoc (Str.lstrip s) c.
Proof.
  intros Hc. unfold Str.snoc.
  induction s as [| d s IH]; cbn [String.append Str.lstrip].
  - rewrite Hc. reflexivity.
  - destruct (Str.isspace d); [assumption | reflexivity].
Qed.

Lemma rstrip_cons (c : ascii) (s : string) :
  Str.isspace c = false -> Str.rstrip (String c s) = String c (Str.rstrip s).
Proof.
  intros Hc. unfold Str.rstrip.
  rewrite rev_cons, lstrip_snoc, rev_snoc by assumption. reflexivity.
Qed.

Lemma rstrip_idempotent (s : string) : Str.rstrip (Str.rstrip s) = Str.rstrip s.
Proof.
  unfold Str.rstrip. rewrite rev_involutive, lstrip_idempotent. reflexivity.
Qed.

(** A trimmed text is not changed by trimming. *)
Lemma strip_idempotent (s : string) : Str.strip (Str.strip s) = Str.strip s.
Proof.
  unfold Str.strip.
  assert (H : Str.lstrip (Str.rstrip (Str.lstrip s)) = Str.rstrip (Str.lstrip s)).
  { induction s as [| c s IH]; [reflexivity|].
    cbn [Str.lstrip]. destruct (Str.isspace c) eqn:E; [assumption|].
    rewrite rstrip_cons by assumption. cbn [Str.lstrip]. rewrite E. reflexivity. }
  rewrite H. apply rstrip_idempotent.
Qed.

(** A trimmed text neither starts nor ends with whitespace. *)
Lemma lstrip_head (s : string) (c : ascii) (t : string) :
  Str.lstrip s = String c t -> Str.isspace c = false.
Proof.
  induction s as [| d s IH]; cbn [Str.lstrip]; [discriminate|].
  destruct (Str.isspace d) eqn:E; [assumption|].
  intros H. injection H as <- _. assumption.
Qed.

Lemma rev_app (s t : string) : Str.rev (s ++ t) = Str.rev t ++ Str.rev s.
Proof.
  induction s as [| c s IH]; cbn [String.append].
  - rewrite append_nil_r. reflexivity.
  - rewrite !rev_cons, IH. unfold Str.snoc. apply append_assoc.
Qed.

Lemma lstrip_blank_app (ws s : string) : blank ws -> Str.lstrip (ws ++ s) = Str.lstrip s.
Proof.
  unfold blank. induction ws as [| c ws IH]; cbn [String.append Str.lstrip]; [reflexivity|].
  destruct (Str.isspace c); [assumption | discriminate].
Qed.

Lemma blank_rev (ws : string) : blank ws -> blank (Str.rev ws).
Proof.
  unfold blank. induction ws as [| c ws IH]; [reflexivity|].
  cbn [Str.lstrip]. destruct (Str.isspace c) eqn:E; [| discriminate].
  intros H. rewrite rev_cons. unfold Str.snoc.
  change (blank (Str.rev ws ++ String c "")).
  unfold blank. rewrite lstrip_blank_app by (apply IH; assumption).
  cbn [Str.lstrip]. rewrite E. reflexivity.
Qed.

Lemma rstrip_app_blank (s ws : string) : blank ws -> Str.rstrip (s ++ ws) = Str.rstrip s.
Proof.
  intros H. unfold Str.rstrip.
  rewrite rev_app, lstrip_blank_app by (apply blank_rev; assumption). reflexivity.
Qed.

Lemma strip_app_blank (s ws : string) : blank ws -> Str.strip (s ++ ws) = Str.strip s.
Proof.
  intros H. unfold Str.strip.
  induction s as [| c s IH]; cbn [String.append].
  - rewrite H. reflexivity.
  - cbn [Str.lstrip]. destruct (Str.isspace c) eqn:E; [assumption|].
    rewrite !rstrip_cons by assumption.
    rewrite rstrip_app_blank by assumption. reflexivity.
Qed.

Lemma strip_blank_app (ws s : string) : blank ws -> Str.strip (ws ++ s) = Str.strip s.
Proof.
  intros H. unfold Str.strip. rewrite lstrip_blank_app by assumption. reflexivity.
Qed.

(** X3. The endpoint sees the text only trimmed: whitespace before and after
    the text changes neither the outcome nor any field of the response, and
    the trimmed text submitted again gives the same result. *)
Theorem detect_text_ignores_outer_whitespace (before text after : string) :
  blank before -> blank after ->
  detect_text (before ++ text ++ after) = detect_text text /\
  detect_text (Str.strip text) = detect_text text.
Proof.
  intros Hb Ha. unfold detect_text.
  rewrite strip_blank_app, strip_app_blank, strip_idempotent by assumption.
  split; reflexivity.
Qed.

Lemma detect_text_ignores_outer_whitespace_witness :
  blank some_whitespace /\ blank " " /\
  detect_text (some_whitespace ++ neutral_text ++ " ") = detect_text neutral_text /\
  detect_text (Str.strip neutral_text) = detect_text neutral_text.
Proof.
  split; [reflexivity|]. split; [reflexivity|].
  apply (detect_text_ignores_outer_whitespace some_whitespace neutral_text " "); reflexivity.
Defined.

(** ** Bounds on what the extractor counts *)

Lemma len_snoc (s : string) (c : ascii) : Str.len (Str.snoc s c) = Str.len s + 1.
Proof.
  unfold Str.len, Str.snoc.
  induction s as [| d s IH]; cbn [String.append String.length]; lia.
Qed.

Lemma sum_nonneg (l : list Z) : Forall (fun x => 0 <= x) l -> 0 <= sum l.
Proof.
  induction 1 as [| x l Hx _ IH]; [cbn; lia | rewrite sum_cons; lia].
Qed.

(** The words of [split] are not empty. *)
Lemma split_from_words (s cur : string) :
  Forall (fun w => 1 <= Str.len w) (Str.split_from s cur).
Proof.
  revert cur. induction s as [| c s IH]; intros cur; cbn [Str.split_from].
  - destruct cur as [| d cur]; cbn [Str.is_empty]; constructor; [| constructor].
    unfold Str.len. cbn [String.length]. lia.
  - destruct (Str.isspace c); [| apply IH].
    destruct cur as [| d cur]; cbn [Str.is_empty]; [apply IH|].
    constructor; [| apply IH]. unfold Str.len. cbn [String.length]. lia.
Qed.

(** The words and a separator after each fit into the text and one more
    character. *)
Lemma split_from_room (s cur : string) :
  sum (List.map (fun w => Str.len w + 1) (Str.split_from s cur))
  <= Str.len s + Str.len cur + 1.
Proof.
  revert cur. induction s as [| c s IH]; intros cur; cbn [Str.split_from].
  - destruct cur as [| d cur]; cbn [Str.is_empty List.map].
    + cbn. lia.
    + rewrite sum_cons. cbn. lia.
  - assert (E : Str.len (String c s) = Str.len s + 1)
      by (unfold Str.len; cbn [String.length]; lia).
    rewrite E.
    destruct (Str.isspace c).
    + destruct cur as [| d cur]; cbn [Str.is_empty List.map].
      * specialize (IH ""). change (Str.len "") with 0 in *. lia.
      * rewrite sum_cons. specialize (IH "").
        change (Str.len "") with 0 in IH. lia.
    + specialize (IH (Str.snoc cur c)). rewrite len_snoc in IH. lia.
Qed.

Lemma words_room (l : list string) :
  Forall (fun w => 1 <= Str.len w) l ->
  2 * len l <= sum (List.map (fun w => Str.len w + 1) l) /\
  sum (List.map Str.len l) + len l = sum (List.map (fun w => Str.len w + 1) l).
Proof.
  unfold len.
  induction 1 as [| w l Hw _ IH]; [cbn; lia|].
  cbn [List.map List.length]. rewrite !sum_cons. lia.
Qed.

(** [s.count(sub)] is not negative, and the occurrences it counts do not
    overlap. *)
Lemma prefix_length (sub s : string) :
  prefix sub s = true -> (String.length sub <= String.length s)%nat.
Proof.
  revert sub. induction s as [| d s IH]; intros [| c sub]; cbn [prefix String.length];
    try lia; try discriminate.
  destruct (ascii_dec c d); [| discriminate].
  intros H. apply IH in H. lia.
Qed.

Lemma count_from_bounds (sub s : string) (skip : nat) :
  (1 <= String.length sub)%nat ->
  0 <= Str.count_from sub s skip /\
  Z.of_nat (String.length sub) * Str.count_from sub s skip
    <= Z.max 0 (Str.len s - Z.of_nat skip).
Proof.
  intros Hsub. unfold Str.len. revert skip.
  induction s as [| c s IH]; intros skip; cbn [Str.count_from].
  - lia.
  - destruct skip as [| k].
    + destruct (prefix sub (String c s)) eqn:E.
      * apply prefix_length in E. cbn [String.length] in E |- *.
        destruct (IH (String.length sub - 1)%nat) as [H0 H1].
        rewrite Z.mul_add_distr_l, Z.mul_1_r. lia.
      * destruct (IH O) as [H0 H1]. cbn [String.length].
        split; [assumption|]. eapply Z.le_trans; [exact H1|]. lia.
    + destruct (IH k) as [H0 H1]. cbn [String.length].
      split; [assumption|]. eapply Z.le_trans; [exact H1|]. lia.
Qed.

Lemma count_bounds (s sub : string) :
  (1 <= String.length sub)%nat ->
  0 <= Str.count s sub /\ Z.of_nat (String.length sub) * Str.count s sub <= Str.len s.
Proof.
  intros H. unfold Str.count.
  destruct (count_from_bounds sub s O H). unfold Str.len in *. lia.
Qed.

Lemma count_repeats_from_nonneg (s : string) (skip : nat) :
  0 <= Re.count_repeats_from s skip.
Proof.
  revert skip. induction s as [| c s IH]; intros skip; cbn [Re.count_repeats_from]; [lia|].
  destruct skip as [| k]; [| apply IH].
  destruct (Re.dot c && (2 <=? Re.run_length c s)%nat).
  - specialize (IH (Re.run_length c s)). lia.
  - apply IH.
Qed.

(** A text that ends with a character that is not whitespace has a word. *)
Lemma split_from_snoc (s cur : string) (c : ascii) :
  Str.isspace c = false -> Str.split_from (Str.snoc s c) cur <> [].
Proof.
  intros Hc. unfold Str.snoc. revert cur.
  induction s as [| d s IH]; intros cur; cbn [String.append Str.split_from].
  - rewrite Hc. destruct cur; cbn; discriminate.
  - destruct (Str.isspace d); [| apply IH].
    destruct (Str.is_empty cur); [apply IH | discriminate].
Qed.

(** A trimmed text that is not empty has a word. *)
Lemma split_strip (s : string) :
  Str.is_empty (Str.strip s) = false -> 1 <= len (Str.split (Str.strip s)).
Proof.
  unfold Str.strip, Str.rstrip. intros H.
  destruct (Str.lstrip (Str.rev (Str.lstrip s))) as [| c t] eqn:E; [discriminate|].
  apply lstrip_head in E. rewrite rev_cons.
  pose proof (split_from_snoc (Str.rev t) "" c E) as Hne.
  unfold Str.split, len.
  destruct (Str.split_from (Str.snoc (Str.rev t) c) ""); [contradiction|].
  cbn [List.length]. lia.
Qed.

Lemma sentence_lengths_positive (text : string) :
  Forall (fun n => 1 <= n) (sentence_lengths text).
Proof.
  unfold sentence_lengths.
  induction (Re.split_terminators text) as [| s l IH]; [constructor|].
  cbn [filter]. destruct (Str.is_empty (Str.strip s)) eqn:E; cbn [negb List.map].
  - assumption.
  - constructor; [apply split_strip; assumption | assumption].
Qed.

(** X4. What the extractor counts is bounded by the size of the text: words
    are separated, so [n] words need [2n - 1] characters; the occurrences of
    a mark are counted without overlap, so an ellipsis takes three
    characters; slang words are words; no count is negative; and every
    sentence that is counted has a word. *)
Theorem extractor_counts_bounded (text : string) :
  exists features,
    analyze_text_features text = inr features /\
    0 <= word_count features /\
    2 * word_count features - 1 <= char_count features /\
    char_count features = Str.len text /\
    0 <= slang_count features <= word_count features /\
    0 <= exclamation_count features <= char_count features /\
    0 <= question_count features <= char_count features /\
    0 <= comma_count features <= char_count features /\
    0 <= ellipsis_count features /\
    3 * ellipsis_count features <= char_count features /\
    0 <= contraction_count features /\
    0 <= repeated_chars features /\
    sentence_count features = len (sentence_lengths text) /\
    Forall (fun n => 1 <= n) (sentence_lengths text).
Proof.
  unfold analyze_text_features.
  rewrite !truediv_guarded. cbn [bind].
  eexists. split; [reflexivity|].
  cbn [word_count char_count slang_count exclamation_count question_count comma_count
       ellipsis_count contraction_count repeated_chars sentence_count].
  pose proof (split_from_words text "") as Hw. fold (Str.split text) in Hw.
  pose proof (split_from_room text "") as Hr. fold (Str.split text) in Hr.
  change (Str.len "") with 0 in Hr.
  destruct (words_room _ Hw) as [H2 _].
  pose proof (count_if_bounds (fun word => mem word slang_words)
                (List.map Str.lower (Str.split text))) as Hs.
  unfold len in Hs. rewrite length_map in Hs. fold (len (Str.split text)) in Hs.
  destruct (count_bounds text "!") as [? ?]; [cbn; lia|].
  destruct (count_bounds text "?") as [? ?]; [cbn; lia|].
  destruct (count_bounds text ",") as [? ?]; [cbn; lia|].
  destruct (count_bounds text "...") as [? ?]; [cbn; lia|].
  change (Z.of_nat (String.length "...")) with 3 in *.
  change (Z.of_nat (String.length "!")) with 1 in *.
  change (Z.of_nat (String.length "?")) with 1 in *.
  change (Z.of_nat (String.length ",")) with 1 in *.
  assert (Hlen : 0 <= len (Str.split text)) by (unfold len; lia).
  repeat (split; [lia|]).
  split.
  { apply sum_nonneg. apply Forall_forall. intros x Hx.
    apply in_map_iff in Hx. destruct Hx as (c & <- & Hc).
    cbn in Hc.
    repeat (destruct Hc as [<- | Hc]; [apply count_bounds; cbn; lia|]). contradiction. }
  split; [apply count_repeats_from_nonneg|].
  split.
  { unfold sentence_lengths, len. rewrite !length_map. reflexivity. }
  apply sentence_lengths_positive.
Qed.

(** The counts of words and characters are those of the text. *)
Lemma word_and_char_count (text : string) (features : FeatureSet) :
  analyze_text_features text = inr features ->
  word_count features = len (Str.split text) /\
  char_count features = Str.len text /\
  2 * word_count features - 1 <= char_count features.
Proof.
  unfold analyze_text_features.
  rewrite !truediv_guarded. cbn [bind]. intros E. injection E as <-.
  cbn [word_count char_count].
  split; [reflexivity|]. split; [reflexivity|].
  pose proof (split_from_words text "") as Hw. fold (Str.split text) in Hw.
  pose proof (split_from_room text "") as Hr. fold (Str.split text) in Hr.
  change (Str.len "") with 0 in Hr.
  destruct (words_room _ Hw) as [H2 _]. lia.
Qed.

(** X5. A response describes the trimmed text: its features are those the
    extractor gives for it, with at least 20 words and so at least 39
    characters; the human probability is the complement of the AI
    probability, the label tells whether the AI probability exceeds 0.5,
    and the explanation is the one for that label and confidence. *)
Theorem response_describes_trimmed_text
    (input_text : string) (response : DetectionResponse) :
  detect_text input_text = inr response ->
  analyze_text_features (Str.strip input_text) = inr (features response) /\
  20 <= word_count (features response) /\
  39 <= char_count (features response) /\
  char_count (features response) = Str.len (Str.strip input_text) /\
  human_probability response = (1 - ai_probability response)%f64 /\
  is_ai_generated response = (ai_probability response >? 0.5)%f64 /\
  explanation response
    = get_explanation (is_ai_generated response) (confidence response)
        (features response) [].
Proof.
  intros E.
  destruct (rejected_dec (Str.strip input_text)) as [Hrej | Hok].
  { destruct (detect_text_rejected _ Hrej) as (detail & E' & _). congruence. }
  destruct (detect_text_accepted _ Hok)
    as (fs & score & factors & Hfs & _ & _ & _ & _ & E').
  rewrite E' in E. injection E as <-.
  cbn [features human_probability ai_probability is_ai_generated explanation confidence].
  destruct (word_and_char_count _ _ Hfs) as (Hw & Hc & Hroom).
  unfold rejected in Hok.
  assert (Hwords : 20 <= len (Str.split (Str.strip input_text))) by lia.
  repeat split; try assumption; lia.
Qed.

Lemma response_describes_trimmed_text_witness :
  exists response,
    detect_text neutral_text = inr response /\
    analyze_text_features (Str.strip neutral_text) = inr (features response) /\
    20 <= word_count (features response) /\
    39 <= char_count (features response) /\
    char_count (features response) = Str.len (Str.strip neutral_text) /\
    human_probability response = (1 - ai_probability response)%f64 /\
    is_ai_generated response = (ai_probability response >? 0.5)%f64 /\
    explanation response
      = get_explanation (is_ai_generated response) (confidence response)
          (features response) [].
Proof.
  eexists. split; [vm_compute; reflexivity|].
  apply (response_describes_trimmed_text neutral_text). vm_compute. reflexivity.
Defined.

(** ** Ratios *)

Lemma Zdigits2_bound (m k : Z) : 0 <= m <= 2 ^ k -> 0 <= k -> Zdigits2 m <= k + 1.
Proof.
  intros [Hlo Hhi] Hk. destruct m as [| p | p]; cbn [Zdigits2]; [lia | | lia].
  pose proof (digits2_pos_bounds p) as [Hd _].
  assert (H : 2 ^ (Zpos (digits2_pos p) - 1) <= 2 ^ k) by lia.
  apply Z.pow_le_mono_r_iff in H; lia.
Qed.

Lemma shr_m_of_loc (m : Z) (l : location) : shr_m (shr_record_of_loc m l) = m.
Proof. destruct l as [| [| |]]; reflexivity. Qed.

(** A significand that stands for a number up to 1 still does after the
    shift to its format; so does one that stands for a number below 1. *)
Lemma shr_fexp_unit (m e : Z) (l : location) :
  0 <= m <= 2 ^ (- e) -> e <= -52 ->
  exists r e1,
    shr_fexp F64.prec F64.emax m e l = (r, e1) /\
    e1 <= -52 /\
    0 <= shr_m r <= 2 ^ (- e1) /\
    (m < 2 ^ (- e) -> shr_m r < 2 ^ (- e1)).
Proof.
  intros Hm He. unfold shr_fexp.
  pose proof (Zdigits2_bound m (- e) Hm ltac:(lia)) as Hd.
  assert (Hf : fexp F64.prec F64.emax (Zdigits2 m + e) <= -52).
  { unfold fexp, emin, F64.prec, F64.emax. lia. }
  destruct (fexp F64.prec F64.emax (Zdigits2 m + e) - e) as [| p | p] eqn:En; cbn [shr].
  - eexists _, _. split; [reflexivity|]. rewrite shr_m_of_loc. repeat split; lia.
  - destruct (iter_shr_1_m p (shr_record_of_loc m l)) as [H0 H1];
      [rewrite shr_m_of_loc; lia|].
    rewrite shr_m_of_loc in H1.
    eexists _, _. split; [reflexivity|]. rewrite H1.
    assert (Epow : 2 ^ (- e) = 2 ^ Zpos p * 2 ^ (- (e + Zpos p))).
    { rewrite <- Z.pow_add_r by lia. f_equal. lia. }
    assert (Hpos : 0 < 2 ^ Zpos p) by (apply Z.pow_pos_nonneg; lia).
    split; [lia|]. split; [split|].
    + apply Z.div_pos; lia.
    + apply Z.div_le_upper_bound; lia.
    + intros Hlt. apply Z.div_lt_upper_bound; lia.
  - eexists _, _. split; [reflexivity|]. rewrite shr_m_of_loc. repeat split; lia.
Qed.

(** Rounding a number below 1 gives a double that is at most 1. *)
Lemma round_below_one (m e : Z) (l : location) :
  0 <= m < 2 ^ (- e) -> e <= -52 ->
  let q := binary_round_aux F64.prec F64.emax false m e l in
  (q <=? 1)%f64 = true /\ (0 <=? q)%f64 = true.
Proof.
  intros Hm He. cbv zeta. unfold binary_round_aux.
  destruct (shr_fexp_unit m e l) as (r1 & e1 & E1 & He1 & Hr1 & Hlt1); [lia | lia |].
  rewrite E1. specialize (Hlt1 ltac:(lia)).
  pose proof (round_nearest_even_bounds (shr_m r1) (loc_of_shr_record r1)) as Hr.
  set (m2 := round_nearest_even (shr_m r1) (loc_of_shr_record r1)) in *.
  destruct (shr_fexp_unit m2 e1 loc_Exact) as (r2 & e2 & E2 & He2 & Hr2 & _); [lia | lia |].
  rewrite E2.
  destruct (shr_m r2) as [| p | p] eqn:Ep; [split; reflexivity | | lia].
  destruct (Z.leb_spec e2 (F64.emax - F64.prec)) as [_ | Hbig];
    [| unfold F64.emax, F64.prec in Hbig; lia].
  split; [| reflexivity].
  unfold F64.leb, SFleb, SFcompare.
  destruct (Z.compare_spec e2 (-52)) as [E | E | E]; [| reflexivity | lia].
  rewrite Pos.compare_cont_spec. cbn [Pos.switch_Eq].
  subst e2. change (2 ^ (- -52)) with (Zpos 4503599627370496) in Hr2.
  rewrite Pos2Z.inj_compare.
  destruct (Z.compare_spec (Zpos p) (Zpos 4503599627370496)) as [H | H | H];
    try reflexivity.
  exfalso. apply Z.lt_nge in H. apply H. apply Hr2.
Qed.

Lemma div_eucl_mul (a b : Z) : 0 < b -> Z.div_eucl (b * a) b = (a, 0).
Proof.
  intros Hb.
  assert (Hq : b * a / b = a) by (rewrite Z.mul_comm; apply Z.div_mul; lia).
  assert (Hr : (b * a) mod b = 0) by (rewrite Z.mul_comm; apply Z.mod_mul; lia).
  unfold Z.div, Z.modulo in Hq, Hr.
  destruct (Z.div_eucl (b * a) b) as [q r]. congruence.
Qed.

Lemma digits2_pos_le (u n : positive) :
  (u <= n)%positive -> Zpos (digits2_pos u) <= Zpos (digits2_pos n).
Proof.
  intros H.
  pose proof (digits2_pos_bounds u) as [Hu _].
  pose proof (digits2_pos_bounds n) as [_ Hn].
  assert (Hlt : 2 ^ (Zpos (digits2_pos u) - 1) < 2 ^ Zpos (digits2_pos n)) by lia.
  apply Z.pow_lt_mono_r_iff in Hlt; lia.
Qed.

(** An integer divided by itself is 1. *)
Lemma div_same (n : positive) :
  (S754_finite false n 0 / S754_finite false n 0)%f64 = 1%f64.
Proof.
  unfold F64.div, SFdiv, SFdiv_core_binary. cbn [Zdigits2].
  replace (Zpos (digits2_pos n) + 0 - (Zpos (digits2_pos n) + 0)) with 0 by lia.
  change (Z.min (fexp F64.prec F64.emax 0) (0 - 0)) with (-53).
  change (0 - 0 - -53) with 53. cbv iota.
  rewrite Z.shiftl_mul_pow2 by lia.
  rewrite div_eucl_mul by lia.
  assert (El : new_location (Zpos n) 0 = loc_Exact).
  { unfold new_location, new_location_even, new_location_odd.
    destruct (Z.even (Zpos n)); reflexivity. }
  rewrite El. reflexivity.
Qed.

(** The quotient of two positive integers, the first not above the second,
    is a double in [0, 1]. *)
Lemma div_in_unit (u n : positive) :
  (u <= n)%positive ->
  let q := (S754_finite false u 0 / S754_finite false n 0)%f64 in
  (q <=? 1)%f64 = true /\ (0 <=? q)%f64 = true.
Proof.
  intros Hle. cbv zeta.
  destruct (Pos.eq_dec u n) as [-> | Hne].
  { rewrite div_same. split; reflexivity. }
  assert (Hlt : Zpos u < Zpos n) by lia.
  pose proof (digits2_pos_le u n Hle) as Hd.
  unfold F64.div, SFdiv, SFdiv_core_binary. cbn [Zdigits2 xorb].
  set (d1 := Zpos (digits2_pos u)) in *. set (d2 := Zpos (digits2_pos n)) in *.
  assert (He : Z.min (fexp F64.prec F64.emax (d1 + 0 - (d2 + 0))) (0 - 0)
               = fexp F64.prec F64.emax (d1 - d2)).
  { replace (d1 + 0 - (d2 + 0)) with (d1 - d2) by lia.
    unfold fexp, emin, F64.prec, F64.emax. lia. }
  rewrite He.
  assert (Hb : -1074 <= fexp F64.prec F64.emax (d1 - d2) <= -53).
  { unfold fexp, emin, F64.prec, F64.emax. lia. }
  set (e := fexp F64.prec F64.emax (d1 - d2)) in *.
  destruct (0 - 0 - e) as [| s | s] eqn:Es; try lia.
  rewrite Z.shiftl_mul_pow2 by lia.
  assert (Epow : Zpos s = - e) by lia. rewrite Epow.
  assert (Hpos : 0 < 2 ^ (- e)) by (apply Z.pow_pos_nonneg; lia).
  pose proof (Z.div_eucl_eq (Zpos u * 2 ^ (- e)) (Zpos n) ltac:(lia)) as Hdiv.
  assert (Hq : 0 <= Zpos u * 2 ^ (- e) / Zpos n < 2 ^ (- e)).
  { split; [apply Z.div_pos; lia|]. apply Z.div_lt_upper_bound; nia. }
  unfold Z.div in Hq.
  destruct (Z.div_eucl (Zpos u * 2 ^ (- e)) (Zpos n)) as [q r].
  apply round_below_one; lia.
Qed.

(** [a / max(n, 1)] for [0 <= a <= n] is a double in [0, 1]. *)
Lemma ratio_in_unit (a n : Z) :
  0 <= a <= n ->
  let q := (F64.exact_int a / F64.exact_int (Z.max n 1))%f64 in
  (0 <=? q)%f64 = true /\ (q <=? 1)%f64 = true.
Proof.
  intros Ha. cbv zeta.
  destruct (Z.max n 1) as [| pn | pn] eqn:En; try lia.
  destruct a as [| pa | pa]; cbn [F64.exact_int]; try lia.
  - split; reflexivity.
  - destruct (div_in_unit pa pn) as [H1 H0]; [lia|]. split; assumption.
Qed.

Lemma distinct_bounds (l : list string) : 0 <= distinct l <= len l.
Proof.
  unfold distinct, len.
  pose proof (NoDup_incl_length (NoDup_nodup string_dec l)
                (fun x H => proj1 (nodup_In string_dec l x) H)). lia.
Qed.

(** X6. The two ratios of the extractor are doubles in [0, 1]: the lexical
    diversity, the share of distinct lower-cased words, and the share of
    upper-case words of more than one character. *)
Theorem ratios_in_unit_interval (text : string) :
  exists features,
    analyze_text_features text = inr features /\
    (0 <=? lexical_diversity features)%f64 = true /\
    (lexical_diversity features <=? 1)%f64 = true /\
    (0 <=? uppercase_word_ratio features)%f64 = true /\
    (uppercase_word_ratio features <=? 1)%f64 = true.
Proof.
  unfold analyze_text_features.
  rewrite !truediv_guarded. cbn [bind].
  eexists. split; [reflexivity|]. cbn [lexical_diversity uppercase_word_ratio].
  pose proof (distinct_bounds (List.map Str.lower (Str.split text))) as Hd.
  unfold len in Hd. rewrite length_map in Hd. fold (len (Str.split text)) in Hd.
  pose proof (count_if_bounds (fun word => Str.isupper word && (1 <? Str.len word))
                (Str.split text)) as Hu.
  destruct (ratio_in_unit _ _ Hd) as [H1 H2].
  destruct (ratio_in_unit _ _ Hu) as [H3 H4].
  repeat split; assumption.
Qed.

(** ** Lower-casing *)

Ltac by_cases_on_char c :=
  destruct c as [[] [] [] [] [] [] [] []]; vm_compute; try reflexivity; try discriminate.

Lemma lower_char_idempotent (c : ascii) :
  Str.lower_char (Str.lower_char c) = Str.lower_char c.
Proof. by_cases_on_char c. Qed.

Lemma isspace_lower_char (c : ascii) : Str.isspace (Str.lower_char c) = Str.isspace c.
Proof. by_cases_on_char c. Qed.

Lemma lower_char_upper (c : ascii) :
  Str.is_upper c = true -> Str.is_lower (Str.lower_char c) = true.
Proof. by_cases_on_char c. Qed.

Lemma lower_char_other (c : ascii) : Str.is_upper c = false -> Str.lower_char c = c.
Proof. unfold Str.lower_char. intros ->. reflexivity. Qed.

Lemma lower_idempotent (s : string) : Str.lower (Str.lower s) = Str.lower s.
Proof.
  unfold Str.lower. induction s as [| c s IH]; cbn [Str.map]; [reflexivity|].
  rewrite lower_char_idempotent, IH. reflexivity.
Qed.

Lemma len_lower (s : string) : Str.len (Str.lower s) = Str.len s.
Proof.
  unfold Str.len, Str.lower. f_equal.
  induction s as [| c s IH]; cbn [Str.map String.length]; congruence.
Qed.

Lemma lower_snoc (s : string) (c : ascii) :
  Str.lower (Str.snoc s c) = Str.snoc (Str.lower s) (Str.lower_char c).
Proof.
  unfold Str.lower, Str.snoc.
  induction s as [| d s IH]; cbn [String.append Str.map]; [reflexivity|].
  rewrite IH. reflexivity.
Qed.

(** The words of the lower-cased text are the words of the text,
    lower-cased. *)
Lemma split_from_lower (s cur : string) :
  Str.split_from (Str.lower s) (Str.lower cur)
  = List.map Str.lower (Str.split_from s cur).
Proof.
  revert cur. induction s as [| c s IH]; intros cur.
  - cbn [Str.lower Str.map Str.split_from]. destruct cur; reflexivity.
  - change (Str.lower (String c s)) with (String (Str.lower_char c) (Str.lower s)).
    cbn [Str.split_from]. rewrite isspace_lower_char.
    destruct (Str.isspace c).
    + destruct cur as [| d cur].
      * apply (IH "").
      * change (Str.is_empty (Str.lower (String d cur))) with false.
        cbn [Str.is_empty List.map]. f_equal. apply (IH "").
    + rewrite <- lower_snoc. apply IH.
Qed.

Lemma split_lower (s : string) :
  Str.split (Str.lower s) = List.map Str.lower (Str.split s).
Proof. apply (split_from_lower s ""). Qed.

(** Lower-casing the text does not change where a string without letters
    occurs in it. *)
Lemma prefix_lower (sub s : string) :
  Str.existsb (fun c => negb (caseless c)) sub = false ->
  prefix sub (Str.lower s) = prefix sub s.
Proof.
  revert sub. induction s as [| d s IH]; intros [| c sub]; try reflexivity.
  cbn [Str.existsb]. intros H. apply orb_false_elim in H. destruct H as [Hc Hsub].
  change (Str.lower (String d s)) with (String (Str.lower_char d) (Str.lower s)).
  cbn [prefix]. rewrite (IH _ Hsub).
  apply negb_false_iff in Hc. unfold caseless in Hc.
  apply negb_true_iff, orb_false_elim in Hc. destruct Hc as [Hu Hl].
  destruct (Str.is_upper d) eqn:Ed.
  - destruct (ascii_dec c (Str.lower_char d)) as [E1 | _], (ascii_dec c d) as [E2 | _];
      try reflexivity.
    + subst c. apply lower_char_upper in Ed. congruence.
    + subst c. congruence.
  - rewrite (lower_char_other _ Ed). reflexivity.
Qed.

Lemma count_from_lower (sub s : string) (skip : nat) :
  Str.existsb (fun c => negb (caseless c)) sub = false ->
  Str.count_from sub (Str.lower s) skip = Str.count_from sub s skip.
Proof.
  intros H. revert skip. induction s as [| d s IH]; intros skip; [reflexivity|].
  pose proof (prefix_lower sub (String d s) H) as Hp.
  change (Str.lower (String d s)) with (String (Str.lower_char d) (Str.lower s)) in *.
  cbn [Str.count_from]. destruct skip as [| k]; [| apply IH].
  rewrite Hp, !IH. reflexivity.
Qed.

(** X7. The extractor matches phrases, transitions and slang without regard
    to case: lower-casing the text changes none of the counts of words,
    characters, AI phrases, formal transitions, slang words and punctuation
    marks, nor the average word length and the lexical diversity. *)
Theorem extractor_case_insensitive (text : string) :
  exists features features',
    analyze_text_features text = inr features /\
    analyze_text_features (Str.lower text) = inr features' /\
    word_count features' = word_count features /\
    char_count features' = char_count features /\
    avg_word_length features' = avg_word_length features /\
    lexical_diversity features' = lexical_diversity features /\
    ai_phrase_count features' = ai_phrase_count features /\
    formal_transition_count features' = formal_transition_count features /\
    slang_count features' = slang_count features /\
    exclamation_count features' = exclamation_count features /\
    question_count features' = question_count features /\
    ellipsis_count features' = ellipsis_count features /\
    comma_count features' = comma_count features.
Proof.
  unfold analyze_text_features.
  rewrite !truediv_guarded. cbn [bind].
  eexists _, _. split; [reflexivity|]. split; [reflexivity|].
  cbn [word_count char_count avg_word_length lexical_diversity ai_phrase_count
       formal_transition_count slang_count exclamation_count question_count
       ellipsis_count comma_count].
  rewrite lower_idempotent, split_lower, len_lower.
  rewrite !List.map_map.
  assert (E1 : List.map (fun x => Str.lower (Str.lower x)) (Str.split text)
               = List.map Str.lower (Str.split text)).
  { apply map_ext. intros w. apply lower_idempotent. }
  assert (E2 : List.map (fun x => Str.len (Str.lower x)) (Str.split text)
               = List.map Str.len (Str.split text)).
  { apply map_ext. intros w. apply len_lower. }
  rewrite E1, E2.
  assert (E3 : len (List.map Str.lower (Str.split text)) = len (Str.split text)).
  { unfold len. rewrite length_map. reflexivity. }
  rewrite E3.
  unfold Str.count. rewrite !count_from_lower by reflexivity.
  repeat split; reflexivity.
Qed.

(** ** Repeated characters and the ellipsis *)

Lemma run_length_two (c : ascii) (s : string) :
  (2 <=? Re.run_length c s)%nat = true <-> exists q, s = String c (String c q).
Proof.
  split.
  - intros H. apply Nat.leb_le in H.
    destruct s as [| d [| e q]]; cbn [Re.run_length] in H; try lia.
    + destruct (Ascii.eqb_spec c d); cbn in H; lia.
    + destruct (Ascii.eqb_spec c d) as [<- |]; [| lia].
      destruct (Ascii.eqb_spec c e) as [<- |]; [| lia].
      exists q. reflexivity.
  - intros [q ->]. cbn [Re.run_length]. rewrite !Ascii.eqb_refl. reflexivity.
Qed.

(** [re.findall(r'(.)\1{2,}', s)] finds something exactly when some
    character other than the line feed stands three times in a row. *)
Lemma count_repeats_from_positive (s : string) (skip : nat) :
  0 < Re.count_repeats_from s skip ->
  exists p c q, Re.dot c = true /\ s = p ++ String c (String c (String c q)).
Proof.
  revert skip. induction s as [| c s IH]; intros skip; cbn [Re.count_repeats_from]; [lia|].
  destruct skip as [| k].
  - destruct (Re.dot c) eqn:Hdot; cbn [andb].
    + destruct ((2 <=? Re.run_length c s)%nat) eqn:Hrun.
      * intros _. apply run_length_two in Hrun. destruct Hrun as [q ->].
        exists "", c, q. split; [assumption | reflexivity].
      * intros H. destruct (IH _ H) as (p & c' & q & Hc & ->).
        exists (String c p), c', q. split; [assumption | reflexivity].
    + intros H. destruct (IH _ H) as (p & c' & q & Hc & ->).
      exists (String c p), c', q. split; [assumption | reflexivity].
  - intros H. destruct (IH _ H) as (p & c' & q & Hc & ->).
    exists (String c p), c', q. split; [assumption | reflexivity].
Qed.

Lemma count_repeats_from_head (c : ascii) (s : string) :
  Re.count_repeats_from (String c s) 0
  = if Re.dot c && (2 <=? Re.run_length c s)%nat
    then 1 + Re.count_repeats_from s (Re.run_length c s)
    else Re.count_repeats_from s 0.
Proof. reflexivity. Qed.

Lemma count_repeats_found (p q : string) (c : ascii) :
  Re.dot c = true ->
  0 < Re.count_repeats (p ++ String c (String c (String c q))).
Proof.
  intros Hc. unfold Re.count_repeats.
  induction p as [| d p IH]; cbn [String.append]; rewrite count_repeats_from_head.
  - rewrite Hc. cbn [andb].
    replace ((2 <=? Re.run_length c (String c (String c q)))%nat) with true
      by (symmetry; apply run_length_two; eauto).
    pose proof (count_repeats_from_nonneg (String c (String c q))
                  (Re.run_length c (String c (String c q)))). lia.
  - destruct (Re.dot d && (2 <=? Re.run_length d (p ++ String c (String c (String c q))))%nat).
    + pose proof (count_repeats_from_nonneg (p ++ String c (String c (String c q)))
                    (Re.run_length d (p ++ String c (String c (String c q))))). lia.
    + assumption.
Qed.

Lemma prefix_app (sub s : string) : prefix sub s = true -> exists q, s = sub ++ q.
Proof.
  revert sub. induction s as [| d s IH]; intros [| c sub]; cbn [prefix]; try discriminate.
  - exists "". reflexivity.
  - exists (String d s). reflexivity.
  - destruct (ascii_dec c d) as [<- |]; [| discriminate].
    intros H. destruct (IH _ H) as [q ->]. exists q. reflexivity.
Qed.

(** What [s.count(sub)] counts is in [s]. *)
Lemma count_from_positive (sub s : string) (skip : nat) :
  0 < Str.count_from sub s skip -> exists p q, s = p ++ sub ++ q.
Proof.
  revert skip. induction s as [| c s IH]; intros skip; cbn [Str.count_from]; [lia|].
  destruct skip as [| k].
  - destruct (prefix sub (String c s)) eqn:E.
    + intros _. apply prefix_app in E. destruct E as [q E].
      exists "", q. exact E.
    + intros H. destruct (IH _ H) as (p & q & ->). exists (String c p), q. reflexivity.
  - intros H. destruct (IH _ H) as (p & q & ->). exists (String c p), q. reflexivity.
Qed.

Lemma ellipsis_is_repeated (text : string) :
  0 < Str.count text "..." -> 0 < Re.count_repeats text.
Proof.
  intros H. apply count_from_positive in H. destruct H as (p & q & ->).
  apply (count_repeats_found p q "."). reflexivity.
Qed.

(** X8. [repeated_chars] is positive exactly when some character other than
    the line feed stands three times in a row in the text. *)
Theorem repeated_chars_positive_iff (text : string) :
  exists features,
    analyze_text_features text = inr features /\
    (0 < repeated_chars features <->
     exists before c after,
       c <> "010"%char /\
       text = before ++ String c (String c (String c after))).
Proof.
  unfold analyze_text_features.
  rewrite !truediv_guarded. cbn [bind].
  eexists. split; [reflexivity|]. cbn [repeated_chars].
  split.
  - intros H. apply count_repeats_from_positive in H.
    destruct H as (p & c & q & Hc & E). exists p, c, q. split; [| exact E].
    unfold Re.dot in Hc. apply negb_true_iff in Hc.
    apply Ascii.eqb_neq. assumption.
  - intros (p & c & q & Hc & ->). apply count_repeats_found.
    unfold Re.dot. apply negb_true_iff, Ascii.eqb_neq. assumption.
Qed.

(** ** The trace *)

Lemma step_entries_acts (s : step) (rules : list rule) (features : FeatureSet) :
  acts s rules ->
  exists r, In r rules /\ step_entries features s = snd r /\
    forall score factors,
      s features (score, factors)
        = inr (apply_adj (fst r) score, (factors ++ step_entries features s)%list).
Proof.
  intros H. destruct (H features) as (r & Hr & E).
  exists r. split; [assumption|].
  assert (Es : step_entries features s = snd r).
  { unfold step_entries. rewrite E. reflexivity. }
  split; [assumption|]. intros score factors. rewrite Es. apply E.
Qed.

(** The trace of a run is what its steps add, step by step. *)
Lemma run_steps_entries (steps : list step) (rules : list (list rule)) :
  Forall2 acts steps rules ->
  forall features, exists rs,
    Forall2 (fun r c => In r c) rs rules /\
    List.map snd rs = List.map (step_entries features) steps /\
    forall score factors,
      run_steps steps features (score, factors)
        = inr (apply_rules rs score,
               (factors ++ flat_map (step_entries features) steps)%list).
Proof.
  induction 1 as [| s c steps rules Hs _ IH]; intros f.
  - exists []. split; [constructor|]. split; [reflexivity|].
    intros score factors. cbn. rewrite app_nil_r. reflexivity.
  - destruct (step_entries_acts s c f Hs) as (r & Hr & Es & Hrun).
    destruct (IH f) as (rs & Hrs & Em & Hrest).
    exists (r :: rs). split; [constructor; assumption|].
    split; [cbn [List.map]; congruence|].
    intros score factors. cbn [run_steps]. rewrite Hrun. cbn [bind].
    rewrite Hrest. cbn [flat_map]. rewrite app_assoc. reflexivity.
Qed.

Lemma calculate_ai_score_entries (text : string) (features : FeatureSet) :
  exists score,
    calculate_ai_score text features
    = inr (score, (1 - score)%f64, flat_map (step_entries features) scorer_steps).
Proof.
  destruct (run_steps_entries _ _ scorer_steps_act features) as (rs & _ & _ & Hrun).
  exists (apply_rules rs 0.5%f64).
  unfold calculate_ai_score, score_with. unfold float in *. rewrite Hrun. reflexivity.
Qed.

Lemma single_entries_length (rules : list (list rule)) (rs : list rule) :
  single_entries rules = true ->
  Forall2 (fun r c => In r c) rs rules ->
  Forall (fun r => (List.length (snd r) <= 1)%nat) rs.
Proof.
  unfold single_entries. intros Hall H.
  induction H as [| r c rs rules Hr _ IH]; [constructor|].
  cbn [forallb] in Hall. apply andb_prop in Hall. destruct Hall as [Hc Hrest].
  constructor; [| apply IH; assumption].
  rewrite forallb_forall in Hc. apply Nat.leb_le. apply Hc. assumption.
Qed.

Lemma trace_of_length (rs : list rule) :
  Forall (fun r => (List.length (snd r) <= 1)%nat) rs ->
  (List.length (trace_of rs) <= List.length rs)%nat.
Proof.
  unfold trace_of. induction 1 as [| r rs Hr _ IH]; [cbn; lia|].
  cbn [List.map List.concat List.length]. rewrite length_app. lia.
Qed.

Lemma no_entry_spec (e : string) (rules : list (list rule)) (rs : list rule) :
  no_entry e rules = true ->
  Forall2 (fun r c => In r c) rs rules ->
  ~ In e (trace_of rs).
Proof.
  unfold no_entry. intros Hno Hrs Hin.
  apply (trace_of_In _ _ _ Hrs), mem_In in Hin. rewrite Hin in Hno. discriminate.
Qed.

(** An entry that only step [i] can add is in the trace exactly when step
    [i] adds it. *)
Lemma only_at_spec (e : string) (features : FeatureSet)
    (steps : list step) (rules : list (list rule)) :
  Forall2 acts steps rules ->
  forall i, only_at i e rules = true ->
    (In e (flat_map (step_entries features) steps)
     <-> In e (step_entries features (nth i steps step_clamp))).
Proof.
  induction 1 as [| s c steps rules Hs Hrest IH]; intros i Honly.
  - cbn [flat_map]. destruct i; cbn [nth]; split; intros Hin; contradiction.
  - cbn [flat_map]. rewrite in_app_iff.
    destruct i as [| i]; cbn [only_at nth] in *.
    + split; [| auto]. intros [Hin | Hin]; [assumption|]. exfalso.
      destruct (run_steps_entries _ _ Hrest features) as (rs & Hrs & Em & _).
      apply (no_entry_spec e rules rs Honly Hrs).
      unfold trace_of. rewrite Em, <- flat_map_concat_map. assumption.
    + apply andb_prop in Honly. destruct Honly as [Hc Honly].
      rewrite <- (IH i Honly). split; [| auto]. intros [Hin | Hin]; [| assumption].
      exfalso. destruct (step_entries_acts s c features Hs) as (r & Hr & Es & _).
      apply (no_entry_spec e [c] [r] Hc); [repeat constructor; assumption|].
      unfold trace_of. cbn [List.map List.concat]. rewrite app_nil_r, <- Es. assumption.
Qed.

(** X9. The trace lists what the steps add, in the order of the steps; a step
    adds at most one entry, each entry is one of nineteen fixed strings, and
    since the short-text and the perfect-structure rules exclude one another
    a trace has at most twelve entries. *)
Theorem trace_in_step_order (text : string) (features : FeatureSet) :
  exists ai human factors,
    calculate_ai_score text features = inr (ai, human, factors) /\
    factors = flat_map (step_entries features) scorer_steps /\
    Forall (fun s => (List.length (step_entries features s) <= 1)%nat) scorer_steps /\
    Forall (fun e => In e trace_vocabulary) factors /\
    (List.length factors <= 12)%nat.
Proof.
  destruct (run_steps_entries _ _ scorer_steps_act features) as (rs & Hrs & Em & Hrun).
  pose proof (single_entries_length scorer_rules rs eq_refl Hrs) as Hone.
  exists (apply_rules rs 0.5%f64), (1 - apply_rules rs 0.5%f64)%f64.
  eexists. split.
  { unfold calculate_ai_score, score_with. unfold float in *. rewrite Hrun. reflexivity. }
  change (([] ++ flat_map (step_entries features) scorer_steps)%list)
    with (flat_map (step_entries features) scorer_steps).
  split; [reflexivity|].
  assert (Et : flat_map (step_entries features) scorer_steps = trace_of rs).
  { unfold trace_of. rewrite Em. apply flat_map_concat_map. }
  split; [| split].
  - apply Forall_forall. intros s Hs.
    apply (in_map (step_entries features)) in Hs. rewrite <- Em in Hs.
    apply in_map_iff in Hs. destruct Hs as (r & <- & Hr).
    rewrite Forall_forall in Hone. apply Hone. assumption.
  - rewrite Et. apply Forall_forall. intros e He.
    apply (trace_of_In _ _ _ Hrs) in He. exact He.
  - destruct (calculate_ai_score_tail text features)
      as (acc & factors0 & Hadd & _ & _ & E).
    cbv zeta in E.
    destruct (calculate_ai_score_entries text features) as (score & E').
    rewrite E in E'.
    set (l := flat_map (step_entries features) scorer_steps) in *.
    assert (Ef : l = ((factors0 ++ (if is_short features then [short_text_entry] else []))
                       ++ (if is_perfect features then [perfect_structure_entry] else []))%list)
      by congruence.
    rewrite Ef. clear - Hadd.
    destruct (run_steps_act _ _ additive_steps_act features) as (rs0 & Hrs0 & Hrun0).
    unfold float in *. rewrite Hrun0 in Hadd. injection Hadd as _ <-.
    pose proof (trace_of_length rs0
                  (single_entries_length additive_rules rs0 eq_refl Hrs0)) as Hlen.
    assert (Hn : List.length rs0 = 11%nat).
    { apply Forall2_length in Hrs0. exact Hrs0. }
    cbn [app] in *. rewrite !length_app.
    destruct (is_short features) eqn:Hs, (is_perfect features) eqn:Hp;
      cbn [List.length]; try lia.
    exfalso. eapply short_and_perfect_exclusive; eassumption.
Qed.

(** ** The explanation and the trace *)

(** Comparisons of a double with the constants of the rules. *)
Lemma above_30_not_below_10 (x : float) :
  (x >? 30)%f64 = true -> (x <? 10)%f64 = false.
Proof.
  unfold F64.ltb, SFltb, SFcompare. intros H.
  destruct x as [[|] | [|] | | [|] m e]; try discriminate H; try reflexivity.
  destruct (Z.compare_spec (-48) e) as [E | E | E]; try discriminate H.
  - subst e. reflexivity.
  - destruct (Z.compare_spec e (-49)) as [E' | E' | E'];
      try reflexivity; exfalso; lia.
Qed.

Lemma above_080_above_075 (x : float) :
  (x >? 0.80)%f64 = true -> (x >? 0.75)%f64 = true.
Proof.
  unfold F64.ltb, SFltb, SFcompare. intros H.
  destruct x as [[|] | [|] | | [|] m e]; try discriminate H; try exact H.
  destruct (Z.compare_spec (-53) e) as [E | E | E]; [| exact H | discriminate H].
  rewrite Pos.compare_cont_spec in H. rewrite Pos.compare_cont_spec.
  cbn [Pos.switch_Eq] in *.
  destruct (Pos.compare_spec 7205759403792794 m) as [H1 | H1 | H1]; try discriminate H.
  assert (H0 : (6755399441055744 < m)%positive).
  { apply (Pos.lt_trans _ 7205759403792794); [reflexivity | assumption]. }
  rewrite (proj2 (Pos.compare_lt_iff _ _) H0). reflexivity.
Qed.

Lemma below_060_below_065 (x : float) :
  (x <? 0.60)%f64 = true -> (x <? 0.65)%f64 = true.
Proof.
  unfold F64.ltb, SFltb, SFcompare. intros H.
  destruct x as [[|] | [|] | | [|] m e]; try discriminate H; try exact H.
  destruct (Z.compare_spec e (-53)) as [E | E | E]; [| exact H | discriminate H].
  rewrite Pos.compare_cont_spec in H. rewrite Pos.compare_cont_spec.
  cbn [Pos.switch_Eq] in *.
  destruct (Pos.compare_spec m 5404319552844595) as [H1 | H1 | H1]; try discriminate H.
  assert (H0 : (m < 5854679515581645)%positive).
  { apply (Pos.lt_trans _ 5404319552844595); [assumption | reflexivity]. }
  rewrite (proj2 (Pos.compare_lt_iff _ _) H0). reflexivity.
Qed.

Lemma varied_not_uniform (v : pynum) : num_gt v 30 = true -> num_lt v 10 = false.
Proof.
  destruct v as [k | x]; cbn [num_gt num_lt].
  - intros H. apply Z.ltb_lt in H. apply Z.ltb_ge. lia.
  - apply above_30_not_below_10.
Qed.

Lemma ai_clauses_chosen (features : FeatureSet) :
  ai_clauses features =
    match chosen (ai_conditions features) ai_specific with
    | [] => ["Text structure and patterns suggest AI generation"]
    | l => l
    end.
Proof.
  unfold ai_clauses, ai_conditions, ai_specific, append_if, append. cbn [chosen].
  destruct (0 <? ai_phrase_count features),
           (2 <? formal_transition_count features),
           (lexical_diversity features >? 0.75)%f64,
           (avg_sentence_length features >? 25)%f64,
           (num_lt (sentence_length_variance features) 10 && (2 <? sentence_count features)),
           ((contraction_count features =? 0) && (50 <? word_count features));
    reflexivity.
Qed.

Lemma human_clauses_chosen (features : FeatureSet) :
  human_clauses features =
    match chosen (human_conditions features) human_specific with
    | [] => ["Writing style and patterns suggest human authorship"]
    | l => l
    end.
Proof.
  unfold human_clauses, human_conditions, human_specific, append_if, append. cbn [chosen].
  destruct (0 <? slang_count features),
           (0 <? repeated_chars features),
           ((0 <? exclamation_count features) || (1 <? question_count features)),
           (0 <? contraction_count features),
           (num_gt (sentence_length_variance features) 30),
           (lexical_diversity features <? 0.65)%f64;
    reflexivity.
Qed.

Lemma chosen_length (conditions : list bool) (clauses : list string) :
  (List.length (chosen conditions clauses) <= List.length clauses)%nat.
Proof.
  revert clauses. induction conditions as [| b conditions IH]; intros [| c clauses];
    cbn [chosen List.length]; try lia.
  specialize (IH clauses). destruct b; cbn [List.length]; lia.
Qed.

Lemma chosen_nil (conditions : list bool) (clauses : list string) :
  List.length conditions = List.length clauses ->
  (chosen conditions clauses = [] <-> Forall (fun b => b = false) conditions).
Proof.
  revert clauses. induction conditions as [| b conditions IH]; intros [| c clauses];
    cbn [chosen List.length]; try discriminate.
  - intros _. split; [constructor | reflexivity].
  - intros E. injection E as E. specialize (IH clauses E).
    destruct b.
    + split; [discriminate|]. intros H. inversion H. discriminate.
    + rewrite IH. split; [constructor; [reflexivity | assumption]|].
      intros H. inversion H. assumption.
Qed.

Lemma chosen_subset (conditions : list bool) (clauses : list string) (x : string) :
  In x (chosen conditions clauses) -> In x clauses.
Proof.
  revert clauses. induction conditions as [| b conditions IH]; intros [| c clauses];
    cbn [chosen]; try contradiction.
  destruct b; cbn [In]; intros H; [destruct H as [H | H]; [auto|] |]; right; eauto.
Qed.

Lemma chosen_In (conditions : list bool) (clauses : list string) (i : nat) :
  NoDup clauses -> (i < List.length clauses)%nat ->
  List.length conditions = List.length clauses ->
  (In (nth i clauses "") (chosen conditions clauses) <-> nth i conditions false = true).
Proof.
  revert clauses i. induction conditions as [| b conditions IH]; intros [| c clauses] i Hnd Hi E;
    cbn [List.length] in *; try lia; try discriminate.
  injection E as E. inversion Hnd as [| ? ? Hc Hnd']; subst.
  destruct i as [| i]; cbn [nth chosen].
  - destruct b; cbn [In]; split; intros H.
    + reflexivity.
    + left. reflexivity.
    + exfalso. apply Hc. apply (chosen_subset conditions). assumption.
    + discriminate.
  - assert (Hi' : (i < List.length clauses)%nat) by lia.
    rewrite <- (IH clauses i Hnd' Hi' E).
    destruct b; cbn [In]; [| reflexivity].
    split; [| auto]. intros [H | H]; [| assumption].
    exfalso. apply Hc. rewrite H. apply nth_In. assumption.
Qed.

(** X10. An explanation always has a clause: each branch lists the clauses
    whose conditions hold, in the order they are tested, at most six, and
    falls back on its generic sentence exactly when none holds. *)
Theorem explanation_clauses (features : FeatureSet) :
  ai_clauses features <> [] /\ human_clauses features <> [] /\
  (List.length (ai_clauses features) <= 6)%nat /\
  (List.length (human_clauses features) <= 6)%nat /\
  (ai_clauses features = ["Text structure and patterns suggest AI generation"]
     <-> Forall (fun b => b = false) (ai_conditions features)) /\
  (human_clauses features = ["Writing style and patterns suggest human authorship"]
     <-> Forall (fun b => b = false) (human_conditions features)) /\
  (~ Forall (fun b => b = false) (ai_conditions features) ->
     ai_clauses features = chosen (ai_conditions features) ai_specific) /\
  (~ Forall (fun b => b = false) (human_conditions features) ->
     human_clauses features = chosen (human_conditions features) human_specific).
Proof.
  rewrite ai_clauses_chosen, human_clauses_chosen.
  pose proof (chosen_length (ai_conditions features) ai_specific) as La.
  pose proof (chosen_length (human_conditions features) human_specific) as Lh.
  pose proof (chosen_nil (ai_conditions features) ai_specific eq_refl) as Na.
  pose proof (chosen_nil (human_conditions features) human_specific eq_refl) as Nh.
  assert (Sa : forall x, In x (chosen (ai_conditions features) ai_specific) ->
                 x <> "Text structure and patterns suggest AI generation").
  { intros x Hx ->.
    assert (H : In "Text structure and patterns suggest AI generation" ai_specific).
    { apply (chosen_subset (ai_conditions features)). assumption. }
    cbn in H. repeat (destruct H as [H | H]; [discriminate H|]). contradiction. }
  assert (Sh : forall x, In x (chosen (human_conditions features) human_specific) ->
                 x <> "Writing style and patterns suggest human authorship").
  { intros x Hx ->.
    assert (H : In "Writing style and patterns suggest human authorship" human_specific).
    { apply (chosen_subset (human_conditions features)). assumption. }
    cbn in H. repeat (destruct H as [H | H]; [discriminate H|]). contradiction. }
  change (List.length ai_specific) with 6%nat in La.
  change (List.length human_specific) with 6%nat in Lh.
  destruct (chosen (ai_conditions features) ai_specific) as [| a la] eqn:Ea;
    destruct (chosen (human_conditions features) human_specific) as [| h lh] eqn:Eh;
    cbn [List.length] in *;
    (split; [discriminate|]); (split; [discriminate|]);
    (split; [lia|]); (split; [lia|]).
  all: split; [| split; [| split]].
  all: try (split; [intros _; apply Na; reflexivity | reflexivity]).
  all: try (split; [intros _; apply Nh; reflexivity | reflexivity]).
  all: try (intros H; exfalso; apply H; first [apply Na | apply Nh]; reflexivity).
  all: try (intros _; reflexivity).
  all: split; intros H.
  all: try (exfalso; first [apply Na in H | apply Nh in H]; discriminate H).
  all: injection H as -> ->; exfalso.
  all: first [ apply (Sa _ (or_introl eq_refl)); reflexivity
             | apply (Sh _ (or_introl eq_refl)); reflexivity ].
Qed.

Lemma specific_clause_listed (conditions : list bool) (clauses : list string)
    (fallback : string) (i : nat) :
  nodup string_dec (fallback :: clauses) = fallback :: clauses ->
  (i < List.length clauses)%nat ->
  List.length conditions = List.length clauses ->
  (In (nth i clauses "")
      match chosen conditions clauses with [] => [fallback] | l => l end
   <-> nth i conditions false = true).
Proof.
  intros Hnd Hi E.
  pose proof (NoDup_nodup string_dec (fallback :: clauses)) as H. rewrite Hnd in H.
  inversion H as [| ? ? Hfb Hclauses]; subst.
  rewrite <- (chosen_In conditions clauses i Hclauses Hi E).
  destruct (chosen conditions clauses) as [| c l]; [| reflexivity].
  cbn [In]. split; [| contradiction]. intros [Heq | []].
  exfalso. apply Hfb. rewrite Heq. apply nth_In. assumption.
Qed.

Lemma ai_clause_listed (features : FeatureSet) (i : nat) :
  (i < 6)%nat ->
  (In (nth i ai_specific "") (ai_clauses features)
   <-> nth i (ai_conditions features) false = true).
Proof.
  intros Hi. rewrite ai_clauses_chosen.
  apply specific_clause_listed; [vm_compute; reflexivity | exact Hi | reflexivity].
Qed.

Lemma human_clause_listed (features : FeatureSet) (i : nat) :
  (i < 6)%nat ->
  (In (nth i human_specific "") (human_clauses features)
   <-> nth i (human_conditions features) false = true).
Proof.
  intros Hi. rewrite human_clauses_chosen.
  apply specific_clause_listed; [vm_compute; reflexivity | exact Hi | reflexivity].
Qed.

(** When each rule with a clause of its own in the explanation adds its
    entry to the trace. *)
Ltac entry_of_step e i :=
  rewrite (only_at_spec e _ _ _ scorer_steps_act i eq_refl);
  cbn [nth scorer_steps]; unfold step_entries.

Lemma ai_phrases_entry (features : FeatureSet) :
  let factors := flat_map (step_entries features) scorer_steps in
  (In "AI phrases: +0.15" factors \/ In "AI phrases: +0.25" factors)
  <-> (0 <? ai_phrase_count features) = true.
Proof.
  cbv zeta.
  rewrite (only_at_spec "AI phrases: +0.15" _ _ _ scorer_steps_act 0 eq_refl).
  rewrite (only_at_spec "AI phrases: +0.25" _ _ _ scorer_steps_act 0 eq_refl).
  change (nth 0 scorer_steps step_clamp) with step_ai_phrases.
  destruct (step_entries_acts _ _ features acts_ai_phrases) as (r & Hr & Es & _).
  assert (Ec : step_entries features step_ai_phrases
               = if 0 <? ai_phrase_count features then snd r else []).
  { rewrite <- Es. unfold step_entries, step_ai_phrases.
    destruct (0 <? ai_phrase_count features); reflexivity. }
  rewrite Ec. destruct (0 <? ai_phrase_count features) eqn:Hc.
  - split; [reflexivity|]. intros _.
    assert (Hne : snd r <> []).
    { rewrite <- Es. unfold step_entries, step_ai_phrases. rewrite Hc.
      unfold append. cbn. discriminate. }
    cbn in Hr. destruct Hr as [<- | [<- | [<- | []]]]; cbn [snd In] in *;
      try (exfalso; apply Hne; reflexivity); auto.
  - cbn [In]. split; [intros [[] | []] | discriminate].
Qed.

Lemma slang_entry (features : FeatureSet) :
  let factors := flat_map (step_entries features) scorer_steps in
  (In "Slang words: -0.10" factors \/ In "Slang words: -0.20" factors)
  <-> (0 <? slang_count features) = true.
Proof.
  cbv zeta.
  rewrite (only_at_spec "Slang words: -0.10" _ _ _ scorer_steps_act 8 eq_refl).
  rewrite (only_at_spec "Slang words: -0.20" _ _ _ scorer_steps_act 8 eq_refl).
  change (nth 8 scorer_steps step_clamp) with step_slang.
  destruct (step_entries_acts _ _ features acts_slang) as (r & Hr & Es & _).
  assert (Ec : step_entries features step_slang
               = if 0 <? slang_count features then snd r else []).
  { rewrite <- Es. unfold step_entries, step_slang.
    destruct (0 <? slang_count features); reflexivity. }
  rewrite Ec. destruct (0 <? slang_count features) eqn:Hc.
  - split; [reflexivity|]. intros _.
    assert (Hne : snd r <> []).
    { rewrite <- Es. unfold step_entries, step_slang. rewrite Hc.
      unfold append. cbn. discriminate. }
    cbn in Hr. destruct Hr as [<- | [<- | [<- | []]]]; cbn [snd In] in *;
      try (exfalso; apply Hne; reflexivity); auto.
  - cbn [In]. split; [intros [[] | []] | discriminate].
Qed.

Ltac entry_by_cases :=
  repeat match goal with
         | |- context [if ?b then _ else _] => destruct b eqn:?
         end;
  cbn; unfold append; cbn;
  split; intros H; try reflexivity; try discriminate; try contradiction; auto;
  try (destruct H as [H | []]; discriminate H).

Lemma formal_transitions_entry (features : FeatureSet) :
  In "Formal transitions: +0.12" (flat_map (step_entries features) scorer_steps)
  <-> (2 <? formal_transition_count features) = true.
Proof.
  entry_of_step "Formal transitions: +0.12" 4%nat. unfold step_formal_transitions. entry_by_cases.
Qed.

Lemma long_sentences_entry (features : FeatureSet) :
  In "Long sentences: +0.10" (flat_map (step_entries features) scorer_steps)
  <-> (avg_sentence_length features >? 25)%f64 = true.
Proof.
  entry_of_step "Long sentences: +0.10" 3%nat. unfold step_sentence_length. entry_by_cases.
Qed.

Lemma uniform_sentences_entry (features : FeatureSet) :
  In "Uniform sentences: +0.12" (flat_map (step_entries features) scorer_steps)
  <-> num_lt (sentence_length_variance features) 10 && (2 <? sentence_count features) = true.
Proof.
  entry_of_step "Uniform sentences: +0.12" 2%nat. unfold step_sentence_uniformity. entry_by_cases.
Qed.

Lemma varied_sentences_entry (features : FeatureSet) :
  In "Varied sentences: -0.10" (flat_map (step_entries features) scorer_steps)
  <-> num_gt (sentence_length_variance features) 30 = true.
Proof.
  entry_of_step "Varied sentences: -0.10" 2%nat. unfold step_sentence_uniformity.
  destruct (num_gt (sentence_length_variance features) 30) eqn:Hv.
  - rewrite (varied_not_uniform _ Hv). cbn. tauto.
  - destruct (num_lt (sentence_length_variance features) 10 && (2 <? sentence_count features));
      cbn; unfold append; cbn; split; intros H; try discriminate; try contradiction.
    destruct H as [H | []]. discriminate H.
Qed.

Lemma repeated_chars_entry (features : FeatureSet) :
  In "Repeated chars: -0.10" (flat_map (step_entries features) scorer_steps)
  <-> (0 <? repeated_chars features) = true.
Proof.
  entry_of_step "Repeated chars: -0.10" 9%nat. unfold step_repeated_chars. entry_by_cases.
Qed.

Lemma punctuation_entry (features : FeatureSet) :
  In "Varied punctuation: -0.10" (flat_map (step_entries features) scorer_steps)
  <-> (0 <? exclamation_count features) || (1 <? question_count features) = true.
Proof.
  entry_of_step "Varied punctuation: -0.10" 5%nat. unfold step_punctuation. entry_by_cases.
Qed.

Lemma ellipsis_entry (features : FeatureSet) :
  In "Ellipsis usage: -0.08" (flat_map (step_entries features) scorer_steps)
  <-> (0 <? ellipsis_count features) = true.
Proof.
  entry_of_step "Ellipsis usage: -0.08" 6%nat. unfold step_ellipsis. entry_by_cases.
Qed.

Lemma high_diversity_entry (features : FeatureSet) :
  In "High lexical diversity: +0.15" (flat_map (step_entries features) scorer_steps)
  <-> (lexical_diversity features >? 0.80)%f64 = true.
Proof.
  entry_of_step "High lexical diversity: +0.15" 1%nat. unfold step_lexical_diversity. entry_by_cases.
Qed.

Lemma low_diversity_entry (features : FeatureSet) :
  In "Low lexical diversity: -0.12" (flat_map (step_entries features) scorer_steps)
  -> (lexical_diversity features <? 0.60)%f64 = true.
Proof.
  entry_of_step "Low lexical diversity: -0.12" 1%nat. unfold step_lexical_diversity.
  destruct (lexical_diversity features >? 0.80)%f64;
    destruct (lexical_diversity features <? 0.60)%f64; cbn; unfold append; cbn;
    intros H; try reflexivity; try contradiction.
  destruct H as [H | []]. discriminate H.
Qed.

Lemma perfect_structure_entry_fired (features : FeatureSet) :
  In "Perfect structure: +0.10" (flat_map (step_entries features) scorer_steps)
  <-> is_perfect features = true.
Proof.
  entry_of_step "Perfect structure: +0.10" 12%nat. unfold step_perfect_structure.
  fold (is_perfect features). entry_by_cases.
Qed.

(** X11. The explanation agrees with the trace. A clause that has a rule of
    its own is listed, in its branch, exactly when that rule has fired; the
    clauses on vocabulary are listed whenever the lexical-diversity rules
    have fired, their thresholds (0.75, 0.65) being wider than those of the
    rules (0.80, 0.60). *)
Theorem explanation_agrees_with_trace (text : string) (features : FeatureSet) :
  exists ai human factors,
    calculate_ai_score text features = inr (ai, human, factors) /\
    (In "Contains typical AI assistant phrases" (ai_clauses features)
       <-> In "AI phrases: +0.15" factors \/ In "AI phrases: +0.25" factors) /\
    (In "Uses formal transitions like 'furthermore' and 'moreover'" (ai_clauses features)
       <-> In "Formal transitions: +0.12" factors) /\
    (In "Consistently long, complex sentences" (ai_clauses features)
       <-> In "Long sentences: +0.10" factors) /\
    (In "Very uniform sentence structure" (ai_clauses features)
       <-> In "Uniform sentences: +0.12" factors) /\
    (In "Uses informal language and slang" (human_clauses features)
       <-> In "Slang words: -0.10" factors \/ In "Slang words: -0.20" factors) /\
    (In "Contains emotional expressions with repeated characters" (human_clauses features)
       <-> In "Repeated chars: -0.10" factors) /\
    (In "Varied punctuation suggests human writing" (human_clauses features)
       <-> In "Varied punctuation: -0.10" factors) /\
    (In "Sentence lengths vary naturally" (human_clauses features)
       <-> In "Varied sentences: -0.10" factors) /\
    (In "High lexical diversity: +0.15" factors ->
       In "High vocabulary diversity typical of AI" (ai_clauses features)) /\
    (In "Low lexical diversity: -0.12" factors ->
       In "Natural word repetition patterns" (human_clauses features)).
Proof.
  destruct (calculate_ai_score_entries text features) as (score & E).
  eexists _, _, _. split; [exact E|].
  pose proof (ai_phrases_entry features) as H0. cbv zeta in H0. rewrite H0.
  pose proof (slang_entry features) as H1. cbv zeta in H1. rewrite H1.
  rewrite formal_transitions_entry, long_sentences_entry, uniform_sentences_entry,
    repeated_chars_entry, punctuation_entry, varied_sentences_entry.
  repeat split.
  - apply (ai_clause_listed features 0). lia.
  - apply (ai_clause_listed features 0). lia.
  - apply (ai_clause_listed features 1). lia.
  - apply (ai_clause_listed features 1). lia.
  - apply (ai_clause_listed features 3). lia.
  - apply (ai_clause_listed features 3). lia.
  - apply (ai_clause_listed features 4). lia.
  - apply (ai_clause_listed features 4). lia.
  - apply (human_clause_listed features 0). lia.
  - apply (human_clause_listed features 0). lia.
  - apply (human_clause_listed features 1). lia.
  - apply (human_clause_listed features 1). lia.
  - apply (human_clause_listed features 2). lia.
  - apply (human_clause_listed features 2). lia.
  - apply (human_clause_listed features 4). lia.
  - apply (human_clause_listed features 4). lia.
  - intros H. apply high_diversity_entry, above_080_above_075 in H.
    apply (ai_clause_listed features 2); [lia | exact H].
  - intros H. apply low_diversity_entry, below_060_below_065 in H.
    apply (human_clause_listed features 5); [lia | exact H].
Qed.

(** X12. An ellipsis is three repeated characters: in every text in which the
    extractor counts an ellipsis it also counts repeated characters, so the
    scorer applies both penalties and never the perfect-structure bonus. *)
Theorem ellipsis_counts_as_repeated_chars (text : string) (features : FeatureSet) :
  analyze_text_features text = inr features ->
  0 < ellipsis_count features ->
  0 < repeated_chars features /\
  exists ai human factors,
    calculate_ai_score text features = inr (ai, human, factors) /\
    In "Ellipsis usage: -0.08" factors /\
    In "Repeated chars: -0.10" factors /\
    ~ In "Perfect structure: +0.10" factors.
Proof.
  intros E Hdots.
  assert (Hrep : 0 < repeated_chars features).
  { revert E Hdots. unfold analyze_text_features.
    rewrite !truediv_guarded. cbn [bind]. intros E. injection E as <-.
    cbn [ellipsis_count repeated_chars]. apply ellipsis_is_repeated. }
  split; [exact Hrep|].
  destruct (calculate_ai_score_entries text features) as (score & Es).
  eexists _, _, _. split; [exact Es|].
  rewrite ellipsis_entry, repeated_chars_entry, perfect_structure_entry_fired.
  split; [apply Z.ltb_lt; assumption|].
  split; [apply Z.ltb_lt; assumption|].
  unfold is_perfect. intros H.
  apply andb_prop in H. destruct H as [H _].
  apply andb_prop in H. destruct H as [H _].
  apply andb_prop in H. destruct H as [_ H].
  apply Z.eqb_eq in H. lia.
Qed.

Lemma ellipsis_counts_as_repeated_chars_witness :
  exists features,
    analyze_text_features trailing_off_text = inr features /\
    0 < ellipsis_count features /\
    0 < repeated_chars features /\
    exists ai human factors,
      calculate_ai_score trailing_off_text features = inr (ai, human, factors) /\
      In "Ellipsis usage: -0.08" factors /\
      In "Repeated chars: -0.10" factors /\
      ~ In "Perfect structure: +0.10" factors.
Proof.
  eexists. split; [vm_compute; reflexivity|].
  split; [reflexivity|].
  apply (ellipsis_counts_as_repeated_chars trailing_off_text);
    [vm_compute; reflexivity | reflexivity].
Defined.

(** ** What the scorer reads *)

(** Steps that do the same on two feature sets give the same run. *)
Lemma run_steps_ext (steps : list step) (f f' : FeatureSet) :
  Forall (fun s : step => forall st, s f st = s f' st) steps ->
  forall st, run_steps steps f st = run_steps steps f' st.
Proof.
  induction 1 as [| s steps Hs _ IH]; intros st; cbn [run_steps]; [reflexivity|].
  rewrite Hs. destruct (s f' st) as [e | st']; cbn [bind]; [reflexivity | apply IH].
Qed.

(** X13. The boosts saturate: with two or more AI phrases the scorer returns
    what it returns for exactly two, score and trace, and likewise for two or
    more slang words. *)
Theorem boosts_saturate (text : string) (features : FeatureSet) (c : Z) :
  2 <= c ->
  calculate_ai_score text (with_ai_phrase_count features c)
    = calculate_ai_score text (with_ai_phrase_count features 2) /\
  calculate_ai_score text (with_slang_count features c)
    = calculate_ai_score text (with_slang_count features 2).
Proof.
  intros Hc. unfold calculate_ai_score, score_with. split.
  - rewrite (run_steps_ext scorer_steps (with_ai_phrase_count features c)
               (with_ai_phrase_count features 2)); [reflexivity|].
    unfold scorer_steps. repeat constructor; intros [score factors]; try reflexivity.
    unfold step_ai_phrases. cbn [ai_phrase_count with_ai_phrase_count].
    destruct (Z.ltb_spec 0 c); [| lia].
    rewrite (ai_phrase_boost_cap c Hc). reflexivity.
  - rewrite (run_steps_ext scorer_steps (with_slang_count features c)
               (with_slang_count features 2)); [reflexivity|].
    unfold scorer_steps. repeat constructor; intros [score factors]; try reflexivity.
    + unfold step_slang. cbn [slang_count with_slang_count].
      destruct (Z.ltb_spec 0 c); [| lia].
      rewrite (slang_boost_cap c Hc). reflexivity.
    + unfold step_perfect_structure.
      cbn [slang_count with_slang_count exclamation_count repeated_chars
           lexical_diversity word_count].
      destruct (Z.eqb_spec c 0); [lia|]. reflexivity.
Qed.

Lemma boosts_saturate_witness :
  2 <= 7 /\
  calculate_ai_score formal_text (with_ai_phrase_count one_char_features 7)
    = calculate_ai_score formal_text (with_ai_phrase_count one_char_features 2) /\
  calculate_ai_score formal_text (with_slang_count one_char_features 7)
    = calculate_ai_score formal_text (with_slang_count one_char_features 2).
Proof.
  split; [lia|]. apply (boosts_saturate formal_text one_char_features 7). lia.
Defined.


(** ** Short texts *)

Lemma run_steps_act_on (features : FeatureSet) (steps : list step) (rules : list (list rule)) :
  Forall2 (acts_on features) steps rules ->
  exists rs,
    Forall2 (fun r c => In r c) rs rules /\
    forall score factors,
      run_steps steps features (score, factors)
        = inr (apply_rules rs score, (factors ++ trace_of rs)%list).
Proof.
  induction 1 as [| s c steps rules Hs _ IH].
  - exists []. split; [constructor|]. intros score factors.
    cbn. rewrite app_nil_r. reflexivity.
  - destruct Hs as (r & Hr & Hrun).
    destruct IH as (rs & Hrs & Hrest).
    exists (r :: rs). split; [constructor; assumption|].
    intros score factors. cbn [run_steps]. rewrite Hrun. cbn [bind].
    rewrite Hrest. unfold trace_of. cbn [List.map List.concat].
    rewrite app_assoc. reflexivity.
Qed.

Lemma short_text_steps_act (features : FeatureSet) :
  word_count features < 30 ->
  Forall2 (acts_on features) scorer_steps short_text_rules.
Proof.
  intros Hshort.
  pose proof scorer_steps_act as H.
  unfold scorer_steps, scorer_rules, short_text_rules in *. cbn [firstn skipn app].
  repeat match goal with
         | H : Forall2 _ (_ :: _) (_ :: _) |- _ => inversion H; subst; clear H
         end.
  repeat match goal with
         | H : acts ?s ?c |- _ => specialize (H features); fold (acts_on features s c) in H
         end.
  assert (Hc : acts_on features step_contractions
                 [(Keep, []); (Minus 0.12%f64, ["High contractions: -0.12"])]).
  { unfold acts_on, step_contractions. rewrite truediv_guarded. cbn [bind].
    destruct (_ >? 0.03)%f64.
    - fires (Minus 0.12%f64) ["High contractions: -0.12"].
    - destruct (Z.ltb_spec 50 (word_count features)); [lia|].
      rewrite andb_false_r. quiet. }
  assert (Hs : acts_on features step_short_text [(Damp, ["Short text: reduced confidence"])]).
  { unfold acts_on, step_short_text. destruct (Z.ltb_spec (word_count features) 30); [| lia].
    fires Damp ["Short text: reduced confidence"]. }
  assert (Hp : acts_on features step_perfect_structure [(Keep, [])]).
  { unfold acts_on, step_perfect_structure.
    destruct (Z.ltb_spec 40 (word_count features)); [lia|].
    rewrite andb_false_r. quiet. }
  repeat (constructor; [assumption|]). constructor.
Qed.

Lemma short_scores_checked :
  check fast_apply fast_short_ok (fast_rules short_text_rules) p_half = true.
Proof. vm_cast_no_check (eq_refl true). Qed.

(** X15. A text of fewer than 30 words is dampened and never gets the highest
    AI probability: its [ai_probability] is at most 0.945 (0.944 up to
    rounding) and its [human_probability] at least 0.055. *)
Theorem short_text_score_bounded (text : string) (features : FeatureSet) :
  word_count features < 30 ->
  exists ai human factors,
    calculate_ai_score text features = inr (ai, human, factors) /\
    In "Short text: reduced confidence" factors /\
    (ai <=? 0.945)%f64 = true /\
    (0.055 <=? human)%f64 = true.
Proof.
  intros Hshort.
  destruct (run_steps_act_on features _ _ (short_text_steps_act features Hshort))
    as (rs & Hrs & Hrun).
  exists (apply_rules rs 0.5%f64), (1 - apply_rules rs 0.5%f64)%f64, (trace_of rs).
  assert (E : calculate_ai_score text features
              = inr (apply_rules rs 0.5%f64, (1 - apply_rules rs 0.5%f64)%f64, trace_of rs)).
  { unfold calculate_ai_score, score_with. unfold float in *. rewrite Hrun. reflexivity. }
  split; [exact E|]. split.
  - destruct (trace_entries text features)
      as (ai & human & factors & acc & E' & _ & Hin & _).
    rewrite E in E'. injection E' as _ _ <-.
    apply Hin. unfold is_short. apply Z.ltb_lt. assumption.
  - pose proof (check_sound fast_apply fast_short_ok _ _ _ short_scores_checked
                  (fast_rules_In _ _ Hrs)) as H.
    fold (fast_apply_rules rs p_half) in H.
    unfold fast_short_ok in H. apply andb_prop in H. destruct H as [H1 H2].
    rewrite p_leb_spec in H1. rewrite p_leb_spec, p_sub_spec in H2.
    rewrite fast_apply_rules_spec in H1, H2
      by (apply (rules_exact_In short_text_rules); [vm_compute; reflexivity | exact Hrs]).
    split; assumption.
Qed.

Lemma short_text_score_bounded_witness :
  word_count one_char_features < 30 /\
  exists ai human factors,
    calculate_ai_score "a" one_char_features = inr (ai, human, factors) /\
    In "Short text: reduced confidence" factors /\
    (ai <=? 0.945)%f64 = true /\
    (0.055 <=? human)%f64 = true.
Proof.
  split; [reflexivity|]. apply (short_text_score_bounded "a" one_char_features). reflexivity.
Defined.
